(** * RAG pipeline over parsed PDF elements: categorizer, caption/image
      matcher and summarization loops

    Shallow embedding of [src/element_categorizer.py],
    [src/image_processor.py], [src/text_table_summarizer.py],
    [src/image_summarizer.py] and [src/pdf_extractor.py].

    Conventions of the embedding
    - Python [str] is [string]; [len] is [String.length].
    - A Python float is an IEEE 754 binary64 number, computed by the
      Standard Library's specification of binary floating-point arithmetic
      ([SpecFloat], precision 53, round to nearest even): sums, differences
      and quotients round as they do in Python, and [<] is the comparison
      of floats, false on NaN.
    - [x ** y] on floats is CPython's [float_pow]: special cases first, the
      C library's [pow] for the rest, [OverflowError] when the result is out
      of range.  The C library is a parameter ([pow]), since its [pow] is
      not bound to be correctly rounded.
    - The numbers of a bounding box are floats other than NaN and -0.0
      ([coordinate]).  On these, and only on these, Python's [==], which
      compares the tuples of numbers used as dictionary keys, is equality
      of values.
    - A Python exception that escapes a function is a [Raise] result; an
      exception caught inside the function follows the handler's code.
    - Log calls are not modelled, except inside [find_closest_image] where
      the level of the calls that matter is recorded.  The one effect of a
      log call that is kept everywhere is the exception raised while its
      f-string is formatted.
    - The external model, the file system and base64 are parameters. *)

From Stdlib Require Import ZArith QArith Lia.
From Stdlib Require Import Floats.PrimFloat Floats.FloatOps Floats.SpecFloat.
From stdpp Require Import base option list strings numbers countable gmap.

#[local] Set Warnings "-inexact-float".

Open Scope Z_scope.

(** ** Python values *)

Inductive exn :=
  | AttributeError
  | TypeError
  | OverflowError
  | ValueError.

Inductive result (A : Type) :=
  | Return (a : A)
  | Raise (e : exn).
Arguments Return {A} a.
Arguments Raise {A} e.

Definition bind {A B} (r : result A) (k : A -> result B) : result B :=
  match r with
  | Return a => k a
  | Raise e => Raise e
  end.

Notation "x <-! r ; k" := (bind r (fun x => k))
  (at level 100, r at next level, right associativity).

(** ** Python floats *)

Definition float : Type := spec_float.

Definition prec : Z := 53.
Definition emax : Z := 1024.

Definition fadd : float -> float -> float := SFadd prec emax.
Definition fsub : float -> float -> float := SFsub prec emax.
Definition fmul : float -> float -> float := SFmul prec emax.
Definition fdiv : float -> float -> float := SFdiv prec emax.
Definition fsqrt : float -> float := SFsqrt prec emax.
Definition fopp : float -> float := SFopp.
Definition fabs : float -> float := SFabs.
Definition fltb : float -> float -> bool := SFltb.
Definition feqb : float -> float -> bool := SFeqb.

Definition is_nan (x : float) : bool :=
  match x with
  | S754_nan => true
  | _ => false
  end.

Definition is_infinite (x : float) : bool :=
  match x with
  | S754_infinity _ => true
  | _ => false
  end.

(** [float('inf')], [0.0], [1.0], [2.0] and [0.5]. *)
Definition inf : float := S754_infinity false.
Definition zero : float := S754_zero false.
Definition one : float := Eval vm_compute in Prim2SF 1%float.
Definition two : float := Eval vm_compute in Prim2SF 2%float.
Definition half : float := Eval vm_compute in Prim2SF 0.5%float.

(** What the C library leaves in [errno]. *)
Inductive errno :=
  | NoError
  | ERANGE
  | EDOM.

Section FloatPow.

(** The C library's [pow(x, y)]: its result and the [errno] it sets. *)
Variable pow : float -> float -> float * errno.

(** The end of [float_pow] (Objects/floatobject.c), reached with a finite
    base that is positive and not 1.0: [errno = 0; ix = pow(iv, iw);
    _Py_ADJUST_ERANGE1(ix);] and the exception for a non-zero [errno].  The
    adjustment sets [ERANGE] for an infinite result that came without it
    and clears it for a zero result (an underflow). *)
Definition libm_pow (iv iw : float) : result float :=
  let '(ix, e) := pow iv iw in
  let e :=
    match e with
    | NoError => if is_infinite ix then ERANGE else NoError
    | ERANGE => if feqb ix zero then NoError else ERANGE
    | EDOM => EDOM
    end in
  match e with
  | NoError => Return ix
  | ERANGE => Raise OverflowError
  | EDOM => Raise ValueError
  end.

(** [x ** 2], that is [float_pow] with the exponent 2.0, an even integer:
    NaN gives NaN, an infinity gives [inf], a zero gives [0.0], a negative
    base is replaced by its absolute value, 1.0 gives 1.0, and the rest
    goes to the C library. *)
Definition float_pow_2 (x : float) : result float :=
  if is_nan x then Return x
  else if is_infinite x then Return (fabs x)
  else if feqb x zero then Return zero
  else
    let iv := if fltb x zero then fopp x else x in
    if feqb iv one then Return one
    else libm_pow iv two.

(** [x ** 0.5], that is [float_pow] with the exponent 0.5, not an integer:
    as above, except that a negative base gives a complex number.  The
    program compares the result with [<], which raises [TypeError] on a
    complex number; that exception stands here for the complex result. *)
Definition float_pow_half (x : float) : result float :=
  if is_nan x then Return x
  else if is_infinite x then Return (fabs x)
  else if feqb x zero then Return zero
  else if fltb x zero then Raise TypeError
  else if feqb x one then Return one
  else libm_pow x half.

End FloatPow.

(** A C library whose [pow] is correctly rounded at the two exponents used
    here: the float nearest to the square, the float nearest to the square
    root.  It serves to run the program on concrete inputs. *)
Definition rounded_pow (x y : float) : float * errno :=
  if feqb y two then (fmul x x, NoError)
  else if feqb y half then (fsqrt x, NoError)
  else (S754_nan, EDOM).

(** A number of a bounding box: a float other than NaN and -0.0.
    [Finite s m e] is the number [(-1)^s * m * 2^e], with the mantissa and
    the exponent of its binary64 form, as [coord] gives them. *)
Inductive coordinate :=
  | Zero
  | Finite (negative : bool) (m : positive) (e : Z)
  | Infinite (negative : bool).

Definition value (c : coordinate) : float :=
  match c with
  | Zero => S754_zero false
  | Finite s m e => S754_finite s m e
  | Infinite s => S754_infinity s
  end.

(** The float and the coordinate written as a float literal. *)
Definition lit (x : PrimFloat.float) : float := Prim2SF x.
Arguments lit x%_float.


Definition coord (x : PrimFloat.float) : coordinate :=
  match Prim2SF x with
  | S754_finite s m e => Finite s m e
  | S754_infinity s => Infinite s
  | S754_zero _ | S754_nan => Zero
  end.
Arguments coord x%_float.

#[global] Instance coordinate_eq_dec : EqDecision coordinate.
Proof. solve_decision. Defined.

#[global] Instance coordinate_countable : Countable coordinate.
Proof.
  refine (inj_countable'
    (fun c => match c with
              | Zero => inl ()
              | Finite s m e => inr (inl (s, m, e))
              | Infinite s => inr (inr s)
              end)
    (fun x => match x with
              | inl _ => Zero
              | inr (inl (s, m, e)) => Finite s m e
              | inr (inr s) => Infinite s
              end) _).
  by intros [].
Defined.

(** A point [p] of a bounding box: a Python list or tuple of numbers,
    read with [p[0]] and [p[1]]. *)
Inductive point :=
  | PtList (xs : list coordinate)
  | PtTuple (xs : list coordinate).

Definition components (p : point) : list coordinate :=
  match p with
  | PtList xs => xs
  | PtTuple xs => xs
  end.

(** The value found under [coordinates] once [.points] has been read:
    [None], a list of points or a tuple of points. *)
Inductive pyseq :=
  | PyNone
  | PyList (ps : list point)
  | PyTuple (ps : list point).

(** [metadata.coordinates]: an object exposing [.points], or a bare value. *)
Inductive coords_attr :=
  | WithPoints (points : pyseq)
  | Bare (v : pyseq).

(** Optional fields are the attributes probed with [hasattr]. *)
Record metadata := {
  page_number : option Z;
  coordinates : option coords_attr;
  image_path : option string;
  text_as_html : string
}.

(** [text] is [str(element)]. *)
Record element := {
  category : string;
  text : string;
  meta : metadata
}.

(** [x.points if hasattr(x, 'points') else x] *)
Definition points_or_self (c : coords_attr) : pyseq :=
  match c with
  | WithPoints p => p
  | Bare v => v
  end.

(** Python truthiness of a coordinates value. *)
Definition truthy (v : pyseq) : bool :=
  match v with
  | PyNone => false
  | PyList ps => negb (bool_decide (ps = []))
  | PyTuple ps => negb (bool_decide (ps = []))
  end.

Definition newline : string := String (Ascii.ascii_of_nat 10) EmptyString.

(** ** element_categorizer.py *)

Module Categorizer.

Definition text_categories : list string :=
  ["CompositeElement"; "NarrativeText"; "ListItem"; "UncategorizedText"].

Definition is_text_category (c : string) : bool :=
  bool_decide (c ∈ text_categories).

Record state := {
  tables_html : list string;
  texts : list string;
  processed_elements : nat;
  skipped_elements : nat
}.

Definition init : state :=
  {| tables_html := []; texts := []; processed_elements := 0;
     skipped_elements := 0 |}.

(** The page filter of line 31. *)
Definition beyond_page_limit (pages_to_be_extracted : Z) (el : element) : bool :=
  (0 <? pages_to_be_extracted) &&
  match page_number (meta el) with
  | Some p => pages_to_be_extracted <? p
  | None => false
  end.

(** The debug messages of lines 40, 54 and 57 read
    [element.metadata.page_number] while they are formatted. *)
Definition format_page (el : element) : result unit :=
  match page_number (meta el) with
  | Some _ => Return tt
  | None => Raise AttributeError
  end.

(** Lines 45-56: the string appended for the table at index [i]. *)
Definition table_with_summary (raw_pdf_elements : list element) (i : nat)
    (el : element) : string :=
  let table_html := text_as_html (meta el) in
  let prev_element_text :=
    match i with
    | O => ""
    | S j =>
        match raw_pdf_elements !! j with
        | Some prev_element =>
            if is_text_category (category prev_element)
            then text prev_element else ""
        | None => ""
        end
    end in
  if negb (String.eqb prev_element_text "")
     && (Z.of_nat (String.length prev_element_text) <? 200)
  then prev_element_text +:+ newline +:+ newline +:+ table_html
  else table_html.

(** One iteration of the loop of line 27. *)
Definition step (raw_pdf_elements : list element) (pages_to_be_extracted : Z)
    (st : state) (i : nat) : result state :=
  match raw_pdf_elements !! i with
  | None => Return st
  | Some el =>
      if beyond_page_limit pages_to_be_extracted el then
        Return {| tables_html := tables_html st; texts := texts st;
                  processed_elements := processed_elements st;
                  skipped_elements := S (skipped_elements st) |}
      else
        let st := {| tables_html := tables_html st; texts := texts st;
                     processed_elements := S (processed_elements st);
                     skipped_elements := skipped_elements st |} in
        if is_text_category (category el) then
          _ <-! format_page el;
          Return {| tables_html := tables_html st;
                    texts := texts st ++ [text el];
                    processed_elements := processed_elements st;
                    skipped_elements := skipped_elements st |}
        else if String.eqb (category el) "Table" then
          _ <-! format_page el;
          Return {| tables_html :=
                      tables_html st ++ [table_with_summary raw_pdf_elements i el];
                    texts := texts st;
                    processed_elements := processed_elements st;
                    skipped_elements := skipped_elements st |}
        else Return st
  end.

Fixpoint loop (raw_pdf_elements : list element) (pages_to_be_extracted : Z)
    (indices : list nat) (st : state) : result state :=
  match indices with
  | [] => Return st
  | i :: rest =>
      st' <-! step raw_pdf_elements pages_to_be_extracted st i;
      loop raw_pdf_elements pages_to_be_extracted rest st'
  end.

Definition categorize_elements (raw_pdf_elements : list element)
    (pages_to_be_extracted : Z) : result (list string * list string) :=
  st <-! loop raw_pdf_elements pages_to_be_extracted
           (seq 0 (length raw_pdf_elements)) init;
  Return (texts st, tables_html st).

End Categorizer.

(** ** image_processor.py *)

Module ImageProcessor.

(** [(page_number, tuple(map(tuple, points)))]: the dictionary key shared
    by the encoding stage and the caption stage. *)
Definition image_key : Type := Z * list (list coordinate).

(** [tuple(map(tuple, ps))] on a list or tuple of points. *)
Definition tuple_of_tuples (ps : list point) : list (list coordinate) :=
  components <$> ps.

(** An entry of [raw_image_list]. *)
Record raw_image := {
  raw_image_path : string;
  raw_base64_data : string;
  raw_page_number : Z;
  raw_coordinates : coords_attr
}.

Section Encoding.

(** [os.path.exists] and [base64.b64encode(open(path,'rb').read())];
    the latter is [None] when opening or reading raises. *)
Variable path_exists : string -> bool.
Variable read_base64 : string -> option string.

(** Line 40: [tuple(map(tuple, element.metadata.coordinates.points))];
    [None] when an exception is raised (no [.points], or not iterable). *)
Definition encoding_key (el : element) : option image_key :=
  p ← page_number (meta el);
  c ← coordinates (meta el);
  match c with
  | WithPoints (PyList ps) => Some (p, tuple_of_tuples ps)
  | WithPoints (PyTuple ps) => Some (p, tuple_of_tuples ps)
  | WithPoints PyNone => None
  | Bare _ => None
  end.

(** The message formatted in the handler of line 45 and in the warning
    of line 47 reads [element.metadata.page_number]. *)
Definition format_page (el : element) : result unit :=
  match page_number (meta el) with
  | Some _ => Return tt
  | None => Raise AttributeError
  end.

Definition convert_step (acc : list raw_image * gmap image_key string)
    (el : element) : result (list raw_image * gmap image_key string) :=
  let '(raw_image_list, image_data_dict) := acc in
  if String.eqb (category el) "Image" then
    match image_path (meta el) with
    | Some path =>
        if negb (String.eqb path "") && path_exists path then
          match read_base64 path with
          | Some b64 =>
              match page_number (meta el), coordinates (meta el) with
              | Some p, Some c =>
                  let raw_image_list :=
                    raw_image_list ++
                      [{| raw_image_path := path; raw_base64_data := b64;
                          raw_page_number := p; raw_coordinates := c |}] in
                  match encoding_key el with
                  | Some k => Return (raw_image_list, <[k := b64]> image_data_dict)
                  | None => Return (raw_image_list, image_data_dict)
                  end
              | _, _ =>
                  _ <-! format_page el; Return (raw_image_list, image_data_dict)
              end
          | None =>
              _ <-! format_page el; Return (raw_image_list, image_data_dict)
          end
        else
          _ <-! format_page el; Return (raw_image_list, image_data_dict)
    | None =>
        _ <-! format_page el; Return (raw_image_list, image_data_dict)
    end
  else Return acc.

Fixpoint convert_loop (els : list element)
    (acc : list raw_image * gmap image_key string)
    : result (list raw_image * gmap image_key string) :=
  match els with
  | [] => Return acc
  | el :: rest => acc' <-! convert_step acc el; convert_loop rest acc'
  end.

Definition convert_images_to_base64 (raw_pdf_elements : list element)
    : result (list raw_image * gmap image_key string) :=
  convert_loop raw_pdf_elements ([], ∅).

End Encoding.

(** An image dictionary handed to [find_closest_image]. *)
Record image_dict := {
  img_image_path : option string;
  img_page_number : Z;
  img_coordinates : pyseq
}.

Inductive log_entry :=
  | ErrCaptionMissing         (* line 66 *)
  | ErrCaptionFormat          (* line 86 *)
  | ErrCaptionCenter          (* line 90 *)
  | ErrProcessingImage (idx : nat)  (* line 129 *)
  | WarnNoneOnPage            (* line 132 *)
  | WarnNoSuitableImage.      (* line 140 *)

Definition is_error (e : log_entry) : bool :=
  match e with
  | ErrCaptionMissing | ErrCaptionFormat | ErrCaptionCenter
  | ErrProcessingImage _ => true
  | WarnNoneOnPage | WarnNoSuitableImage => false
  end.

Section Search.

(** The C library behind [**]. *)
Variable pow : float -> float -> float * errno.

(** [min(l)] starts from the first item and takes each later item that is
    [<] the one it holds; [max(l)] does the same with [>]. *)
Definition fmin (cur item : float) : float := if fltb item cur then item else cur.
Definition fmax (cur item : float) : float := if fltb cur item then item else cur.

(** [None] is the [ValueError] on an empty list. *)
Definition py_min (l : list float) : option float :=
  match l with
  | [] => None
  | x :: rest => Some (foldl fmin x rest)
  end.

Definition py_max (l : list float) : option float :=
  match l with
  | [] => None
  | x :: rest => Some (foldl fmax x rest)
  end.

(** Lines 81-84 and 101-104: the centre of a bounding box; [None] when an
    exception is raised ([p[0]] or [p[1]] out of range). *)
Definition center (ps : list point) : option (float * float) :=
  x_coords ← mapM (fun p => value <$> components p !! 0%nat) ps;
  y_coords ← mapM (fun p => value <$> components p !! 1%nat) ps;
  lx ← py_min x_coords; hx ← py_max x_coords;
  ly ← py_min y_coords; hy ← py_max y_coords;
  Some (fdiv (fadd lx hx) two, fdiv (fadd ly hy) two).

(** Lines 113-115: [(horizontal_distance ** 2 + vertical_distance ** 2)
    ** 0.5].  [Raise] is an exception on its way to the handler of
    line 128. *)
Definition distance (c i : float * float) : result float :=
  let horizontal_distance := fabs (fsub c.1 i.1) in
  let vertical_distance := fabs (fsub c.2 i.2) in
  h2 <-! float_pow_2 pow horizontal_distance;
  v2 <-! float_pow_2 pow vertical_distance;
  float_pow_half pow (fadd h2 v2).

(** Loop state. *)
Record search := {
  min_distance : float;
  closest_image : option image_dict;
  found_on_page : nat;
  log : list log_entry
}.

(** One iteration of the loop of line 95. *)
Definition search_step (caption_page_number : Z) (caption_center : float * float)
    (st : search) (idx : nat) (img_data : image_dict) : search :=
  if bool_decide (img_page_number img_data = caption_page_number)
     && truthy (img_coordinates img_data) then
    let found := S (found_on_page st) in
    match img_coordinates img_data with
    | PyList ((_ :: _) as img_coords) =>
        match center img_coords with
        | Some img_center =>
            match distance caption_center img_center with
            | Return distance =>
                if fltb distance (min_distance st) then
                  {| min_distance := distance;
                     closest_image := Some img_data;
                     found_on_page := found; log := log st |}
                else
                  {| min_distance := min_distance st;
                     closest_image := closest_image st;
                     found_on_page := found; log := log st |}
            | Raise _ =>
                {| min_distance := min_distance st;
                   closest_image := closest_image st;
                   found_on_page := found;
                   log := log st ++ [ErrProcessingImage idx] |}
            end
        | None =>
            {| min_distance := min_distance st;
               closest_image := closest_image st;
               found_on_page := found;
               log := log st ++ [ErrProcessingImage idx] |}
        end
    | _ =>
        {| min_distance := min_distance st;
           closest_image := closest_image st;
           found_on_page := found; log := log st |}
    end
  else st.

Fixpoint search_loop (caption_page_number : Z) (caption_center : float * float)
    (idx : nat) (images : list image_dict) (st : search) : search :=
  match images with
  | [] => st
  | img_data :: rest =>
      search_loop caption_page_number caption_center (S idx) rest
        (search_step caption_page_number caption_center st idx img_data)
  end.

(** [find_closest_image] with the errors and warnings it logs. *)
Definition find_closest_image_logged (caption : element)
    (images : list image_dict) : option image_dict * list log_entry :=
  match coordinates (meta caption), page_number (meta caption) with
  | Some c, Some caption_page_number =>
      match points_or_self c with
      | PyList ((_ :: _) as caption_coords) =>
          match center caption_coords with
          | Some caption_center =>
              let st :=
                search_loop caption_page_number caption_center 0 images
                  {| min_distance := inf; closest_image := None;
                     found_on_page := 0; log := [] |} in
              let l1 :=
                if bool_decide (found_on_page st = 0%nat)
                then [WarnNoneOnPage] else [] in
              let l2 :=
                match closest_image st with
                | Some _ => []
                | None => [WarnNoSuitableImage]
                end in
              (closest_image st, log st ++ l1 ++ l2)
          | None => (None, [ErrCaptionCenter])
          end
      | _ => (None, [ErrCaptionFormat])
      end
  | _, _ => (None, [ErrCaptionMissing])
  end.

Definition find_closest_image (caption : element) (images : list image_dict)
    : option image_dict :=
  (find_closest_image_logged caption images).1.

(** A value of [caption_image_dict]. *)
Record bundle := {
  base64_data : string;
  caption_text : string;
  bundle_page_number : Z
}.

(** Lines 191-197 and 227-233: what becomes of a coordinates value on its
    way into a key. *)
Inductive key_attempt :=
  | KeyOk (k : list (list coordinate))   (* a tuple of tuples *)
  | KeySkip                      (* [TypeError] caught: [continue] *)
  | KeyUnhashable.               (* a tuple left as it is, holding a list *)

Definition as_tuple (p : point) : option (list coordinate) :=
  match p with
  | PtTuple xs => Some xs
  | PtList _ => None
  end.

Definition coords_for_key (v : pyseq) : key_attempt :=
  match v with
  | PyTuple ps =>
      match mapM as_tuple ps with
      | Some k => KeyOk k
      | None => KeyUnhashable
      end
  | PyList ps => KeyOk (tuple_of_tuples ps)
  | PyNone => KeySkip
  end.

(** Lines 175-182. *)
Definition images_for_closest_search (images : list element) : list image_dict :=
  omap (fun el =>
          p ← page_number (meta el);
          c ← coordinates (meta el);
          Some {| img_image_path := image_path (meta el);
                  img_page_number := p;
                  img_coordinates := points_or_self c |}) images.

(** One iteration of the loop of line 170. *)
Definition caption_step (images : list element)
    (image_base64_dict : gmap image_key string)
    (caption_image_dict : gmap image_key bundle) (caption : element)
    : result (gmap image_key bundle) :=
  match find_closest_image caption (images_for_closest_search images) with
  | Some closest_image =>
      match coords_for_key (img_coordinates closest_image) with
      | KeySkip => Return caption_image_dict
      | KeyUnhashable => Raise TypeError
      | KeyOk k =>
          let image_key := (img_page_number closest_image, k) in
          match image_base64_dict !! image_key with
          | Some b64 =>
              Return (<[image_key :=
                          {| base64_data := b64;
                             caption_text := text caption;
                             bundle_page_number := img_page_number closest_image |}]>
                        caption_image_dict)
          | None => Return caption_image_dict
          end
      end
  | None => Return caption_image_dict
  end.

(** One iteration of the loop of line 221. *)
Definition orphan_step (image_base64_dict : gmap image_key string)
    (caption_image_dict : gmap image_key bundle) (img_element : element)
    : result (gmap image_key bundle) :=
  match page_number (meta img_element), coordinates (meta img_element) with
  | Some p, Some c =>
      match coords_for_key (points_or_self c) with
      | KeySkip => Return caption_image_dict
      | KeyUnhashable => Raise TypeError
      | KeyOk k =>
          let img_key_for_dict := (p, k) in
          match caption_image_dict !! img_key_for_dict with
          | Some _ => Return caption_image_dict
          | None =>
              Return (<[img_key_for_dict :=
                          {| base64_data :=
                               default "" (image_base64_dict !! img_key_for_dict);
                             caption_text := "";
                             bundle_page_number := p |}]>
                        caption_image_dict)
          end
      end
  | _, _ => Return caption_image_dict
  end.

Fixpoint for_each {A S} (body : S -> A -> result S) (l : list A) (st : S)
    : result S :=
  match l with
  | [] => Return st
  | a :: rest => st' <-! body st a; for_each body rest st'
  end.

Definition has_category (c : string) (el : element) : bool :=
  String.eqb (category el) c.

Definition generate_caption_image_page_number (raw_pdf_elements : list element)
    (image_base64_dict : gmap image_key string)
    : result (gmap image_key bundle) :=
  let images := List.filter (has_category "Image") raw_pdf_elements in
  let captions := List.filter (has_category "FigureCaption") raw_pdf_elements in
  d <-! for_each (caption_step images image_base64_dict) captions ∅;
  for_each (orphan_step image_base64_dict) images d.

End Search.

End ImageProcessor.

(** ** The external model and the retry helper of image_summarizer.py *)

Module Summarizer.

(** What one [model.generate_content(...)] followed by [responses.text]
    does: it yields the text, raises [ResourceExhausted] (with the seconds
    of its [retry_delay] when it carries one), or raises something else. *)
Inductive response :=
  | Text (t : string)
  | ResourceExhausted (retry_delay : option Z)
  | OtherException.

(** The observable effects: how many calls were made to the model and the
    arguments of [time.sleep], oldest first. *)
Record world := {
  calls : nat;
  sleeps : list Z
}.

Definition sleep (seconds : Z) (w : world) : world :=
  {| calls := calls w; sleeps := sleeps w ++ [seconds] |}.

(** [s[:n]] *)
Definition take_chars (n : nat) (s : string) : string := String.substring 0 n s.

(** [needle in hay] on strings. *)
Fixpoint contains (needle hay : string) : bool :=
  String.prefix needle hay ||
  match hay with
  | EmptyString => false
  | String _ rest => contains needle rest
  end.

Section Model.

(** A model answers its [n]-th call as a function of [n] and of the
    content it is given. *)
Context {P : Type}.
Variable generate_content : nat -> P -> response.

Definition call (content : P) (w : world) : response * world :=
  (generate_content (calls w) content,
   {| calls := S (calls w); sleeps := sleeps w |}).

Definition error_sentinel (element_type element_key : string) : string :=
  "Error summarizing " +:+ element_type +:+ " " +:+ element_key +:+ ".".

Definition failed_sentinel (element_type element_key : string) : string :=
  "Failed to summarize " +:+ element_type +:+ " " +:+ element_key
    +:+ " after multiple retries.".

(** Line 33-36. *)
Definition wait_time (retries : nat) (retry_delay : option Z) : Z :=
  let wait_time := 2 ^ Z.of_nat retries in
  match retry_delay with
  | Some seconds => Z.max wait_time seconds
  | None => wait_time
  end.

(** The loop [while retries < max_retries]; [remaining] is
    [max_retries - retries]. *)
Fixpoint retry_loop (content_parts : P) (element_type element_key : string)
    (remaining retries : nat) (w : world) : string * world :=
  match remaining with
  | O => (failed_sentinel element_type element_key, w)
  | S remaining =>
      match call content_parts w with
      | (Text t, w) => (t, w)
      | (ResourceExhausted retry_delay, w) =>
          let retries := S retries in
          retry_loop content_parts element_type element_key remaining retries
            (sleep (wait_time retries retry_delay) w)
      | (OtherException, w) => (error_sentinel element_type element_key, w)
      end
  end.

Definition make_llm_call_with_retry_multimodal (content_parts : P)
    (element_type element_key : string) (max_retries : nat) (w : world)
    : string * world :=
  retry_loop content_parts element_type element_key max_retries 0 w.

End Model.

(** ** text_table_summarizer.py *)

Section TextTable.

Variable model_text_summarize : nat -> string -> response.
Variable model_table_summarize : nat -> string -> response.

Definition text_sentinel (text : string) : string :=
  "Error summarizing text: " +:+ take_chars 100 text +:+ "...".

Definition table_sentinel (table : string) : string :=
  "Error summarizing table: " +:+ take_chars 100 table +:+ "...".

(** The loops of lines 57 and 75: summaries, exception counter, world. *)
Fixpoint summarize_each (model : nat -> string -> response)
    (sentinel : string -> string) (items : list string)
    (summaries : list string) (exception_counter : nat) (w : world)
    : list string * nat * world :=
  match items with
  | [] => (summaries, exception_counter, w)
  | item :: rest =>
      match call model item w with
      | (Text summary, w) =>
          summarize_each model sentinel rest (summaries ++ [summary])
            exception_counter w
      | (_, w) =>
          summarize_each model sentinel rest (summaries ++ [sentinel item])
            (S exception_counter) w
      end
  end.

Record text_table_run := {
  text_summaries : list string;
  table_summaries : list string;
  text_exception_counter : nat;
  table_exception_counter : nat;
  processed_count : nat;
  final_world : world
}.

Definition generate_table_text_summaries (texts tables : list string)
    (w : world) : text_table_run :=
  let '(text_summaries, text_exception_counter, w) :=
    summarize_each model_text_summarize text_sentinel texts [] 0 w in
  let '(table_summaries, table_exception_counter, w) :=
    summarize_each model_table_summarize table_sentinel tables [] 0 w in
  {| text_summaries := text_summaries;
     table_summaries := table_summaries;
     text_exception_counter := text_exception_counter;
     table_exception_counter := table_exception_counter;
     processed_count := (length texts + length tables)%nat;
     final_world := w |}.

End TextTable.

(** ** image_summarizer.py *)

(** A value of the dictionary given to [image_to_text_summarizer]; the
    bundles built by [generate_caption_image_page_number] have no
    ["image_path"]. *)
Record image_info := {
  info_base64_data : string;
  info_caption_text : string;
  info_page_number : Z;
  info_image_path : option string
}.

Definition of_bundle (b : ImageProcessor.bundle) : image_info :=
  {| info_base64_data := ImageProcessor.base64_data b;
     info_caption_text := ImageProcessor.caption_text b;
     info_page_number := ImageProcessor.bundle_page_number b;
     info_image_path := None |}.

Definition lower_ascii (c : Ascii.ascii) : Ascii.ascii :=
  let n := Ascii.nat_of_ascii c in
  if (65 <=? n)%nat && (n <=? 90)%nat then Ascii.ascii_of_nat (n + 32) else c.

Fixpoint lower (s : string) : string :=
  match s with
  | EmptyString => EmptyString
  | String c rest => String (lower_ascii c) (lower rest)
  end.

Definition endswith (s suffix : string) : bool :=
  String.prefix (String.rev suffix) (String.rev s).

Section Image.

(** [base64.b64decode] ([None] when it raises), [str] of a page number
    and of a key. *)
Variable bytes : Type.
Variable b64decode : string -> option bytes.
Variable str_page : Z -> string.
Variable str_key : ImageProcessor.image_key -> string.

Record prompt_parts := {
  prompt_header : string;
  prompt_image_data : bytes;
  prompt_mime_type : string;
  prompt_request : string
}.

Variable model_image_summarize : nat -> prompt_parts -> response.

Definition mime_type_of (info : image_info) : string :=
  match info_image_path info with
  | Some path =>
      if negb (String.eqb path "") && endswith (lower path) ".png"
      then "image/png"
      else if negb (String.eqb path "") && endswith (lower path) ".gif"
      then "image/gif"
      else "image/jpeg"
  | None => "image/jpeg"
  end.

(** Lines 91-96. *)
Definition make_prompt (info : image_info) (decoded_image_data : bytes)
    : prompt_parts :=
  {| prompt_header :=
       "Image on page " +:+ str_page (info_page_number info) +:+ ". Caption: "
         +:+ (if String.eqb (info_caption_text info) ""
              then "No caption provided." else info_caption_text info)
         +:+ newline;
     prompt_image_data := decoded_image_data;
     prompt_mime_type := mime_type_of info;
     prompt_request :=
       "Please analyze the image and its caption (if any) and provide a detailed summary. Start the summary with 'This context is coming from image: '." |}.

(** Line 102. *)
Definition element_key (image_key : ImageProcessor.image_key)
    (info : image_info) : string :=
  "page " +:+ str_page (info_page_number info) +:+ " (" +:+ str_key image_key
    +:+ ")".

Definition processing_sentinel (image_key : ImageProcessor.image_key) : string :=
  "Error processing image with key " +:+ str_key image_key +:+ ".".

(** Line 105. *)
Definition looks_failed (summary : string) : bool :=
  contains "Error summarizing image" summary
  || contains "Failed to summarize image" summary.

(** The body of the loop of line 73: the slot appended, whether the
    counter is incremented, the world. *)
Definition summarize_image (image_key : ImageProcessor.image_key)
    (info : image_info) (w : world) : string * bool * world :=
  match b64decode (info_base64_data info) with
  | Some decoded_image_data =>
      let '(summary, w) :=
        make_llm_call_with_retry_multimodal model_image_summarize
          (make_prompt info decoded_image_data) "image"
          (element_key image_key info) 5 w in
      (summary, looks_failed summary, w)
  | None => (processing_sentinel image_key, true, w)
  end.

Fixpoint summarize_images (items : list (ImageProcessor.image_key * image_info))
    (image_summary_list : list string) (image_exception_counter : nat)
    (w : world) : list string * nat * world :=
  match items with
  | [] => (image_summary_list, image_exception_counter, w)
  | (image_key, info) :: rest =>
      let '(summary, failed, w) := summarize_image image_key info w in
      summarize_images rest (image_summary_list ++ [summary])
        (if failed then S image_exception_counter else image_exception_counter)
        w
  end.

(** [caption_image_dict.items()] is given as the list of its pairs. *)
Definition image_to_text_summarizer
    (caption_image_dict : list (ImageProcessor.image_key * image_info))
    (w : world) : list string * nat * world :=
  summarize_images caption_image_dict [] 0 w.

End Image.

End Summarizer.

(** * Properties *)

Lemma bind_return {A B} (r : result A) (k : A -> result B) (a : A) :
  r = Return a -> bind r k = k a.
Proof. intros ->. reflexivity. Qed.

(** ** Categorizer: the context of a table *)

Module CategorizerFacts.
Import Categorizer.

(** The string the specification gives for the table at index [i]: the text
    of the element before it, a blank line and the markup when that element
    is text-like with a non-empty text of fewer than 200 characters; the
    markup alone otherwise. *)
Definition short_context (prev : element) : bool :=
  is_text_category (category prev)
  && negb (String.eqb (text prev) "")
  && bool_decide (String.length (text prev) < 200)%nat.

Definition claimed_table_string (raw : list element) (i : nat) (tbl : element)
    : string :=
  match i with
  | O => text_as_html (meta tbl)
  | S j =>
      match raw !! j with
      | Some prev =>
          if short_context prev
          then text prev +:+ newline +:+ newline +:+ text_as_html (meta tbl)
          else text_as_html (meta tbl)
      | None => text_as_html (meta tbl)
      end
  end.

(** What index [i] contributes to the list of tables. *)
Definition claimed_table (raw : list element) (pages : Z) (i : nat)
    : option string :=
  el ← raw !! i;
  if String.eqb (category el) "Table" && negb (beyond_page_limit pages el)
  then Some (claimed_table_string raw i el) else None.

Definition claimed_text (raw : list element) (pages : Z) (i : nat)
    : option string :=
  el ← raw !! i;
  if is_text_category (category el) && negb (beyond_page_limit pages el)
  then Some (text el) else None.

Lemma table_is_not_text c : String.eqb c "Table" = true -> is_text_category c = false.
Proof. intros H%String.eqb_eq. subst c. reflexivity. Qed.

Lemma table_with_summary_claimed raw i el :
  table_with_summary raw i el = claimed_table_string raw i el.
Proof.
  unfold table_with_summary, claimed_table_string, short_context.
  destruct i as [|j]; [reflexivity|].
  destruct (raw !! j) as [prev|]; [|reflexivity].
  destruct (is_text_category (category prev)); [|reflexivity].
  cbn [andb]. destruct (String.eqb (text prev) ""); [reflexivity|].
  cbn [negb andb].
  destruct (Z.ltb_spec (Z.of_nat (String.length (text prev))) 200);
    case_bool_decide; try reflexivity; lia.
Qed.

Lemma step_spec raw pages st i :
  (forall el, raw !! i = Some el -> is_Some (page_number (meta el))) ->
  exists st',
    step raw pages st i = Return st'
    /\ tables_html st' = tables_html st ++ option_list (claimed_table raw pages i)
    /\ texts st' = texts st ++ option_list (claimed_text raw pages i).
Proof.
  intros Hpage. unfold step, claimed_table, claimed_text.
  destruct (raw !! i) as [el|] eqn:Hel; cbn.
  2:{ exists st. rewrite !app_nil_r. done. }
  destruct (Hpage el eq_refl) as [p Hp].
  destruct (beyond_page_limit pages el).
  { rewrite !andb_false_r. cbn. eexists. split; [reflexivity|].
    cbn. rewrite !app_nil_r. done. }
  rewrite !andb_true_r.
  destruct (is_text_category (category el)) eqn:Htext.
  - assert (String.eqb (category el) "Table" = false) as ->.
    { destruct (String.eqb (category el) "Table") eqn:E; [|done].
      apply table_is_not_text in E. congruence. }
    unfold format_page. rewrite Hp. cbn.
    eexists. split; [reflexivity|]. cbn. rewrite app_nil_r. done.
  - destruct (String.eqb (category el) "Table").
    + unfold format_page. rewrite Hp. cbn.
      eexists. split; [reflexivity|]. cbn.
      rewrite table_with_summary_claimed, app_nil_r. done.
    + eexists. split; [reflexivity|]. cbn. rewrite !app_nil_r. done.
Qed.

Lemma loop_spec raw pages idxs : forall st,
  (forall el, el ∈ raw -> is_Some (page_number (meta el))) ->
  exists st',
    loop raw pages idxs st = Return st'
    /\ tables_html st' = tables_html st ++ omap (claimed_table raw pages) idxs
    /\ texts st' = texts st ++ omap (claimed_text raw pages) idxs.
Proof.
  induction idxs as [|i idxs IH]; intros st Hpage.
  - exists st. cbn. rewrite !app_nil_r. done.
  - destruct (step_spec raw pages st i) as (st1 & Hstep & Htab & Htxt).
    { intros el Hel. apply Hpage. eapply list_elem_of_lookup_2, Hel. }
    destruct (IH st1 Hpage) as (st2 & Hloop & Htab2 & Htxt2).
    exists st2. cbn [loop]. rewrite Hstep. cbn. split; [exact Hloop|].
    rewrite Htab2, Htab, Htxt2, Htxt, <- !app_assoc. cbn [omap list_omap].
    split.
    + f_equal. destruct (claimed_table raw pages i); reflexivity.
    + f_equal. destruct (claimed_text raw pages i); reflexivity.
Qed.

(** C7. When every element carries a page number, [categorize_elements]
    returns, and its list of tables holds, in stream order, one string per
    retained Table element: at index [i > 0] the text of the element at
    [i - 1] of the unfiltered stream, a blank line and the markup when that
    element is text-like with a non-empty text of fewer than 200
    characters, and the markup unmodified otherwise (and at index 0). *)
Theorem table_context_threshold (raw : list element) (pages : Z) :
  (forall el, el ∈ raw -> is_Some (page_number (meta el))) ->
  categorize_elements raw pages =
    Return (omap (claimed_text raw pages) (seq 0 (length raw)),
            omap (claimed_table raw pages) (seq 0 (length raw))).
Proof.
  intros Hpage. unfold categorize_elements.
  destruct (loop_spec raw pages (seq 0 (length raw)) init Hpage)
    as (st & Hloop & Htab & Htxt).
  rewrite Hloop. cbn. rewrite Htab, Htxt. reflexivity.
Qed.

Fixpoint run_of (n : nat) (c : Ascii.ascii) : string :=
  match n with
  | O => EmptyString
  | S n => String c (run_of n c)
  end.

Definition narrative (t : string) : element :=
  {| category := "NarrativeText"; text := t;
     meta := {| page_number := Some 1; coordinates := None;
                image_path := None; text_as_html := "" |} |}.

Definition table (html : string) : element :=
  {| category := "Table"; text := "";
     meta := {| page_number := Some 1; coordinates := None;
                image_path := None; text_as_html := html |} |}.

Lemma table_context_threshold_witness :
  categorize_elements [narrative "Sales"; table "<table/>"] 100 =
    Return (["Sales"], ["Sales" +:+ newline +:+ newline +:+ "<table/>"]).
Proof.
  rewrite (table_context_threshold [narrative "Sales"; table "<table/>"] 100).
  - reflexivity.
  - intros el Hel. repeat (apply elem_of_cons in Hel as [->|Hel]); try (eexists; reflexivity).
    by apply elem_of_nil in Hel.
Defined.

(** A run of 199 characters is prepended, a run of 200 is not. *)
Example context_199 :
  let a := Ascii.ascii_of_nat 97 in
  categorize_elements [narrative (run_of 199 a); table "<table/>"] 100 =
    Return ([run_of 199 a],
            [run_of 199 a +:+ newline +:+ newline +:+ "<table/>"]).
Proof. vm_compute. reflexivity. Qed.

Example context_200 :
  let a := Ascii.ascii_of_nat 97 in
  categorize_elements [narrative (run_of 200 a); table "<table/>"] 100 =
    Return ([run_of 200 a], ["<table/>"]).
Proof. vm_compute. reflexivity. Qed.

End CategorizerFacts.

(** ** The order of floats *)

Module FloatFacts.

Ltac float_cases :=
  repeat match goal with s : bool |- _ => destruct s end;
  cbn; try done; try (by left); try (by right).

Ltac compare_cases ea eb ec ma mb mc :=
  change (Pos.compare_cont Eq) with Pos.compare;
  destruct (Z.compare_spec ea eb), (Z.compare_spec eb ec),
    (Z.compare_spec ec eb), (Z.compare_spec ea ec);
  try done; try lia; subst; try (by left); try (by right);
  destruct (Pos.compare_spec ma mb), (Pos.compare_spec mb mc),
    (Pos.compare_spec mc mb), (Pos.compare_spec ma mc);
  cbn; try done; try lia; try (by left); try (by right).

Lemma fltb_irrefl a : fltb a a = false.
Proof.
  unfold fltb, SFltb.
  destruct a as [sa|sa| |sa ma ea]; cbn; float_cases;
    rewrite Z.compare_refl; change (Pos.compare_cont Eq) with Pos.compare;
    by rewrite Pos.compare_refl.
Qed.

Lemma fltb_trans a b c :
  fltb a b = true -> fltb b c = true -> fltb a c = true.
Proof.
  unfold fltb, SFltb.
  destruct a as [sa|sa| |sa ma ea], b as [sb|sb| |sb mb eb],
    c as [sc|sc| |sc mc ec]; cbn; try done; float_cases.
  all: compare_cases ea eb ec ma mb mc.
Qed.

(** On the floats other than NaN, [<] is a strict weak order. *)
Lemma fltb_cotrans a b c :
  fltb a b = true -> is_nan c = false ->
  fltb a c = true \/ fltb c b = true.
Proof.
  unfold fltb, SFltb.
  destruct a as [sa|sa| |sa ma ea], b as [sb|sb| |sb mb eb],
    c as [sc|sc| |sc mc ec]; cbn; try done; float_cases.
  all: compare_cases ea eb ec ma mb mc.
Qed.

Lemma fltb_nan_l a b : fltb a b = true -> is_nan a = false.
Proof. by destruct a. Qed.

Lemma fltb_asym a b : fltb a b = true -> fltb b a = false.
Proof.
  intros H. destruct (fltb b a) eqn:Hba; [|done].
  by rewrite <- (fltb_irrefl a), (fltb_trans a b a).
Qed.

(** On the numbers of a bounding box the order is total. *)
Lemma value_total a b :
  fltb (value a) (value b) = false -> fltb (value b) (value a) = false ->
  a = b.
Proof.
  unfold fltb, SFltb.
  destruct a as [|sa ma ea|sa], b as [|sb mb eb|sb]; cbn; try done;
    float_cases.
  all: change (Pos.compare_cont Eq) with Pos.compare;
    destruct (Z.compare_spec ea eb), (Z.compare_spec eb ea);
    try done; try lia; subst;
    destruct (Pos.compare_spec ma mb), (Pos.compare_spec mb ma);
    cbn; try done; try lia; subst; done.
Qed.

End FloatFacts.

(** ** Spatial matcher: [find_closest_image] *)

Module MatcherFacts.
Import ImageProcessor.

(** A non-empty Python list: the only coordinates [find_closest_image]
    reads. *)
Definition nonempty_list (v : pyseq) : bool :=
  match v with
  | PyList (_ :: _) => true
  | _ => false
  end.

(** The centre of a candidate for a caption on page [p]; [None] when the
    candidate is on another page, or its coordinates are not a non-empty
    list, or reading them raises. *)
Definition candidate_center (p : Z) (img : image_dict) : option (float * float) :=
  if bool_decide (img_page_number img = p) then
    match img_coordinates img with
    | PyList ((_ :: _) as ps) => center ps
    | _ => None
    end
  else None.

Definition same_page (p : Z) (img : image_dict) : bool :=
  bool_decide (img_page_number img = p).

Lemma truthy_cons_list q ps : truthy (PyList (q :: ps)) = true.
Proof. unfold truthy. by rewrite bool_decide_eq_false_2. Qed.

Lemma truthy_cons_tuple q ps : truthy (PyTuple (q :: ps)) = true.
Proof. unfold truthy. by rewrite bool_decide_eq_false_2. Qed.

Lemma nonempty_list_truthy v : nonempty_list v = true -> truthy v = true.
Proof. destruct v as [|[|? ?]|]; done. Qed.

Section Matcher.

Variable pow : float -> float -> float * errno.

(** The distance the loop compares for a candidate: that from the
    caption's centre [c] to the candidate's centre; [None] when the
    candidate has no centre or the computation raises. *)
Definition candidate_distance (p : Z) (c : float * float) (img : image_dict)
    : option float :=
  ic ← candidate_center p img;
  match distance pow c ic with
  | Return d => Some d
  | Raise _ => None
  end.

(** What one iteration does to the running minimum, by the candidate's
    distance. *)
Lemma search_step_candidate p c st idx img :
  let st' := search_step pow p c st idx img in
  match candidate_distance p c img with
  | Some d =>
      if fltb d (min_distance st)
      then min_distance st' = d /\ closest_image st' = Some img
      else min_distance st' = min_distance st
           /\ closest_image st' = closest_image st
  | None =>
      min_distance st' = min_distance st
      /\ closest_image st' = closest_image st
  end.
Proof.
  unfold search_step, candidate_distance, candidate_center.
  case_bool_decide as Hp; cbn [andb]; [|done].
  destruct (img_coordinates img) as [|[|q ps]|[|q ps]]; try done.
  rewrite truthy_cons_list. cbn [andb].
  destruct (center (q :: ps)) as [ic|]; [|done]. cbn.
  destruct (distance pow c ic) as [d|e]; [|done].
  destruct (fltb d (min_distance st)); done.
Qed.

Lemma search_step_other_page p c st idx img :
  same_page p img = false -> search_step pow p c st idx img = st.
Proof.
  unfold same_page, search_step. intros ->. reflexivity.
Qed.

(** The running minimum and the running closest image do not depend on the
    counters and the log. *)
Lemma search_step_core p c st1 st2 i1 i2 img :
  min_distance st1 = min_distance st2 ->
  closest_image st1 = closest_image st2 ->
  min_distance (search_step pow p c st1 i1 img)
    = min_distance (search_step pow p c st2 i2 img)
  /\ closest_image (search_step pow p c st1 i1 img)
    = closest_image (search_step pow p c st2 i2 img).
Proof.
  intros Hm Hc.
  pose proof (search_step_candidate p c st1 i1 img) as H1.
  pose proof (search_step_candidate p c st2 i2 img) as H2.
  cbn zeta in H1, H2. rewrite <- Hm, <- Hc in H2.
  destruct (candidate_distance p c img) as [d|].
  - destruct (fltb d (min_distance st1));
      destruct H1 as [-> ->], H2 as [-> ->]; done.
  - destruct H1 as [-> ->], H2 as [-> ->]; done.
Qed.

Lemma search_loop_filter p c images : forall i1 i2 st1 st2,
  min_distance st1 = min_distance st2 ->
  closest_image st1 = closest_image st2 ->
  closest_image (search_loop pow p c i1 images st1)
    = closest_image
        (search_loop pow p c i2 (List.filter (same_page p) images) st2).
Proof.
  induction images as [|img images IH]; intros i1 i2 st1 st2 Hm Hc; cbn.
  - exact Hc.
  - destruct (same_page p img) eqn:Hp; cbn.
    + destruct (search_step_core p c st1 st2 i1 i2 img Hm Hc) as [Hm' Hc'].
      apply IH; assumption.
    + rewrite search_step_other_page by exact Hp. apply IH; assumption.
Qed.

(** The closest image, when there is one, is one of the candidates, on the
    caption's page, with a non-empty list for coordinates. *)
Definition eligible (p : Z) (images : list image_dict) (r : image_dict) : Prop :=
  r ∈ images /\ img_page_number r = p /\ nonempty_list (img_coordinates r) = true.

Lemma candidate_center_eligible p img ic :
  candidate_center p img = Some ic ->
  img_page_number img = p /\ nonempty_list (img_coordinates img) = true.
Proof.
  unfold candidate_center. case_bool_decide as Hp; [|done].
  destruct (img_coordinates img) as [|[|? ?]|]; done.
Qed.

Lemma search_loop_eligible p c images : forall idx st r,
  closest_image (search_loop pow p c idx images st) = Some r ->
  closest_image st = Some r \/ eligible p images r.
Proof.
  induction images as [|img images IH]; intros idx st r H; cbn in H.
  - left. exact H.
  - apply IH in H as [H|(Hin & Hp & Hne)].
    + pose proof (search_step_candidate p c st idx img) as Hs. cbn zeta in Hs.
      destruct (candidate_distance p c img) as [d|] eqn:Hd.
      * destruct (fltb d (min_distance st)).
        -- destruct Hs as [_ Hs]. rewrite Hs in H. injection H as <-.
           right. unfold candidate_distance in Hd.
           destruct (candidate_center p img) as [ic|] eqn:Hic; [|done].
           apply candidate_center_eligible in Hic as [Hp Hne].
           split; [left|]. split; assumption.
        -- destruct Hs as [_ Hs]. rewrite Hs in H. left. exact H.
      * destruct Hs as [_ Hs]. rewrite Hs in H. left. exact H.
    + right. split; [right; exact Hin|]. split; assumption.
Qed.

Lemma find_closest_image_eligible caption images r :
  find_closest_image pow caption images = Some r ->
  exists p, page_number (meta caption) = Some p /\ eligible p images r.
Proof.
  unfold find_closest_image, find_closest_image_logged.
  destruct (coordinates (meta caption)) as [c|]; [|done].
  destruct (page_number (meta caption)) as [p|]; [|done].
  destruct (points_or_self c) as [|[|q ps]|]; try done.
  destruct (center (q :: ps)) as [cc|]; [|done].
  cbn. intros H. exists p. split; [reflexivity|].
  apply search_loop_eligible in H as [H|H]; [done|exact H].
Qed.

(** C3. Candidates on other pages never influence the result: the result
    is the one obtained from the same-page candidates alone, and it is
    none when no candidate shares the caption's page number, wherever the
    other candidates lie. *)
Theorem page_isolation (caption : element) (images : list image_dict) :
  (forall p, page_number (meta caption) = Some p ->
     find_closest_image pow caption images
       = find_closest_image pow caption (List.filter (same_page p) images))
  /\ ((forall img, img ∈ images ->
         page_number (meta caption) <> Some (img_page_number img)) ->
      find_closest_image pow caption images = None).
Proof.
  split.
  - intros p Hp. unfold find_closest_image, find_closest_image_logged.
    rewrite Hp.
    destruct (coordinates (meta caption)) as [c|]; [|done].
    destruct (points_or_self c) as [|[|q ps]|]; try done.
    destruct (center (q :: ps)) as [cc|]; [|done].
    cbn. apply search_loop_filter; reflexivity.
  - intros Hother.
    destruct (find_closest_image pow caption images) as [r|] eqn:H; [|done].
    apply find_closest_image_eligible in H as (p & Hp & Hin & Hpage & _).
    exfalso. apply (Hother r Hin). rewrite Hp, Hpage. reflexivity.
Qed.

End Matcher.

End MatcherFacts.

(** ** Spatial matcher: the nearest candidate *)

Module NearestFacts.
Import ImageProcessor FloatFacts MatcherFacts.

(** No item of [l] is below [m], which is one of them. *)
Definition is_least (m : float) (l : list float) : Prop :=
  m ∈ l /\ forall x, x ∈ l -> fltb x m = false.

Definition is_greatest (m : float) (l : list float) : Prop :=
  m ∈ l /\ forall x, x ∈ l -> fltb m x = false.

(** The midpoint of the least and greatest X and of the least and greatest
    Y of the points [ps], sum and quotient being those of floats. *)
Definition box_midpoint (ps : list point) (c : float * float) : Prop :=
  exists xs ys lx hx ly hy,
    mapM (fun p => value <$> components p !! 0%nat) ps = Some xs
    /\ mapM (fun p => value <$> components p !! 1%nat) ps = Some ys
    /\ is_least lx xs /\ is_greatest hx xs
    /\ is_least ly ys /\ is_greatest hy ys
    /\ c = (fdiv (fadd lx hx) two, fdiv (fadd ly hy) two).

Lemma foldl_fmin_spec rest : forall x,
  let m := foldl fmin x rest in
  (m = x \/ (m ∈ rest /\ fltb m x = true))
  /\ forall z, z ∈ rest -> fltb z m = false.
Proof.
  induction rest as [|y rest IH]; intros x; cbn.
  - split; [by left|]. by intros z ?%elem_of_nil.
  - destruct (IH (fmin x y)) as [Hm Hle]. clear IH.
    set (m := foldl fmin (fmin x y) rest) in *.
    unfold fmin in Hm. destruct (fltb y x) eqn:Hyx.
    + destruct Hm as [Hm|[Hin Hlt]].
      * split; [right; split; [rewrite Hm; left|by rewrite Hm]|].
        intros z [->|Hz]%elem_of_cons; [|by apply Hle].
        rewrite Hm. apply fltb_irrefl.
      * split; [right; split; [by right|by apply (fltb_trans m y x)]|].
        intros z [->|Hz]%elem_of_cons; [|by apply Hle].
        by apply fltb_asym.
    + destruct Hm as [Hm|[Hin Hlt]].
      * split; [by left|].
        intros z [->|Hz]%elem_of_cons; [|by apply Hle].
        by rewrite Hm.
      * split; [right; split; [by right|done]|].
        intros z [->|Hz]%elem_of_cons; [|by apply Hle].
        destruct (fltb y m) eqn:Hym; [|done].
        by rewrite (fltb_trans y m x) in Hyx.
Qed.

Lemma foldl_fmax_spec rest : forall x,
  let m := foldl fmax x rest in
  (m = x \/ (m ∈ rest /\ fltb x m = true))
  /\ forall z, z ∈ rest -> fltb m z = false.
Proof.
  induction rest as [|y rest IH]; intros x; cbn.
  - split; [by left|]. by intros z ?%elem_of_nil.
  - destruct (IH (fmax x y)) as [Hm Hle]. clear IH.
    set (m := foldl fmax (fmax x y) rest) in *.
    unfold fmax in Hm. destruct (fltb x y) eqn:Hxy.
    + destruct Hm as [Hm|[Hin Hlt]].
      * split; [right; split; [rewrite Hm; left|by rewrite Hm]|].
        intros z [->|Hz]%elem_of_cons; [|by apply Hle].
        rewrite Hm. apply fltb_irrefl.
      * split; [right; split; [by right|by apply (fltb_trans x y m)]|].
        intros z [->|Hz]%elem_of_cons; [|by apply Hle].
        by apply fltb_asym.
    + destruct Hm as [Hm|[Hin Hlt]].
      * split; [by left|].
        intros z [->|Hz]%elem_of_cons; [|by apply Hle].
        by rewrite Hm.
      * split; [right; split; [by right|done]|].
        intros z [->|Hz]%elem_of_cons; [|by apply Hle].
        destruct (fltb m y) eqn:Hmy; [|done].
        by rewrite (fltb_trans x m y) in Hxy.
Qed.

Lemma py_min_least l m : py_min l = Some m -> is_least m l.
Proof.
  destruct l as [|x rest]; [done|]. intros [= <-].
  destruct (foldl_fmin_spec rest x) as [Hm Hle]. cbn zeta in *. split.
  - destruct Hm as [->|[Hin _]]; [left|by right].
  - intros z [->|Hz]%elem_of_cons; [|by apply Hle].
    destruct Hm as [->|[_ Hlt]]; [apply fltb_irrefl|by apply fltb_asym].
Qed.

Lemma py_max_greatest l m : py_max l = Some m -> is_greatest m l.
Proof.
  destruct l as [|x rest]; [done|]. intros [= <-].
  destruct (foldl_fmax_spec rest x) as [Hm Hle]. cbn zeta in *. split.
  - destruct Hm as [->|[Hin _]]; [left|by right].
  - intros z [->|Hz]%elem_of_cons; [|by apply Hle].
    destruct Hm as [->|[_ Hlt]]; [apply fltb_irrefl|by apply fltb_asym].
Qed.

Lemma center_box_midpoint ps c : center ps = Some c -> box_midpoint ps c.
Proof.
  unfold center, box_midpoint. intros H.
  destruct (mapM (fun p => value <$> components p !! 0%nat) ps) as [xs|]; [|done].
  destruct (mapM (fun p => value <$> components p !! 1%nat) ps) as [ys|]; [|done].
  cbn in H.
  destruct (py_min xs) as [lx|] eqn:Hlx; [|done].
  destruct (py_max xs) as [hx|] eqn:Hhx; [|done].
  destruct (py_min ys) as [ly|] eqn:Hly; [|done].
  destruct (py_max ys) as [hy|] eqn:Hhy; [|done].
  cbn in H. injection H as <-.
  exists xs, ys, lx, hx, ly, hy.
  split; [reflexivity|]. split; [reflexivity|].
  split; [by apply py_min_least|]. split; [by apply py_max_greatest|].
  split; [by apply py_min_least|]. split; [by apply py_max_greatest|].
  reflexivity.
Qed.

Section Nearest.

Variable pow : float -> float -> float * errno.

(** [d] is the Euclidean distance from [c] to [i] taken step by step in
    float arithmetic: the two offsets, their squares [** 2], the sum of the
    squares and its root [** 0.5], none of the powers raising. *)
Definition euclidean (c i : float * float) (d : float) : Prop :=
  exists h2 v2,
    float_pow_2 pow (fabs (fsub c.1 i.1)) = Return h2
    /\ float_pow_2 pow (fabs (fsub c.2 i.2)) = Return v2
    /\ float_pow_half pow (fadd h2 v2) = Return d.

Lemma distance_euclidean c i d :
  distance pow c i = Return d <-> euclidean c i d.
Proof.
  unfold distance, euclidean. split.
  - destruct (float_pow_2 pow (fabs (fsub c.1 i.1))) as [h2|]; [|done].
    destruct (float_pow_2 pow (fabs (fsub c.2 i.2))) as [v2|]; [|done].
    cbn. intros H. by exists h2, v2.
  - intros (h2 & v2 & -> & -> & H). exact H.
Qed.

Lemma candidate_distance_euclidean p c img d :
  candidate_distance pow p c img = Some d
  <-> exists ic, candidate_center p img = Some ic /\ euclidean c ic d.
Proof.
  unfold candidate_distance. split.
  - destruct (candidate_center p img) as [ic|]; [|done]. cbn.
    destruct (distance pow c ic) as [d'|] eqn:Hd; [|done].
    intros [= <-]. exists ic. split; [done|]. by apply distance_euclidean.
  - intros (ic & -> & Hd%distance_euclidean). cbn. by rewrite Hd.
Qed.

(** The invariant of the search loop after the candidates [seen]: the
    running closest image is the first of the candidates seen whose
    distance is least, and that distance is below infinity. *)
Definition first_nearest (p : Z) (c : float * float) (seen : list image_dict)
    (i : nat) (r : image_dict) (d : float) : Prop :=
  seen !! i = Some r
  /\ candidate_distance pow p c r = Some d
  /\ fltb d inf = true
  /\ forall j img dj,
       seen !! j = Some img -> candidate_distance pow p c img = Some dj ->
       fltb dj d = false
       /\ ((j < i)%nat -> is_nan dj = false -> fltb d dj = true).

Definition best_so_far (p : Z) (c : float * float) (seen : list image_dict)
    (m : float) (cl : option image_dict) : Prop :=
  match cl with
  | None =>
      m = inf
      /\ forall img dj, img ∈ seen ->
           candidate_distance pow p c img = Some dj -> fltb dj inf = false
  | Some r => exists i, first_nearest p c seen i r m
  end.

(** Whatever the running closest image, no candidate seen is below the
    running minimum, which is [inf] or below it. *)
Lemma best_so_far_bound p c seen m cl :
  best_so_far p c seen m cl ->
  (m = inf \/ fltb m inf = true)
  /\ forall j img dj,
       seen !! j = Some img -> candidate_distance pow p c img = Some dj ->
       fltb dj m = false.
Proof.
  destruct cl as [r|]; cbn.
  - intros (i & _ & _ & Hinf & Hall). split; [by right|].
    intros j img dj Hj Hdj. by destruct (Hall j img dj Hj Hdj).
  - intros [-> Hall]. split; [by left|].
    intros j img dj Hj Hdj. eapply Hall; [|exact Hdj].
    by eapply list_elem_of_lookup_2.
Qed.

Lemma best_so_far_step p c seen st idx img :
  best_so_far p c seen (min_distance st) (closest_image st) ->
  let st' := search_step pow p c st idx img in
  best_so_far p c (seen ++ [img]) (min_distance st') (closest_image st').
Proof.
  intros Hinv. pose proof (search_step_candidate pow p c st idx img) as Hs.
  pose proof (best_so_far_bound _ _ _ _ _ Hinv) as [Hm Hbound].
  cbn zeta in *.
  destruct (candidate_distance pow p c img) as [d|] eqn:Hd.
  - destruct (fltb d (min_distance st)) eqn:Hlt; destruct Hs as [-> ->].
    + (* the new candidate is strictly nearer than all before it *)
      exists (length seen).
      split; [by rewrite lookup_app_r, Nat.sub_diag by lia|].
      split; [exact Hd|]. split.
      { destruct Hm as [Hm|Hm]; [by rewrite <- Hm|by eapply fltb_trans]. }
      intros j img' dj Hj Hdj.
      apply lookup_app_Some in Hj as [Hj|[Hge Hj]].
      * specialize (Hbound j img' dj Hj Hdj). split.
        -- destruct (fltb dj d) eqn:Hjd; [|done].
           by rewrite (fltb_trans dj d (min_distance st)) in Hbound.
        -- intros _ Hnan.
           destruct (fltb_cotrans _ _ dj Hlt Hnan) as [H|H]; [done|congruence].
      * destruct (j - length seen)%nat as [|k] eqn:Hk; [|done].
        injection Hj as <-. rewrite Hd in Hdj. injection Hdj as <-.
        split; [apply fltb_irrefl|lia].
    + (* the running closest image stays *)
      destruct (closest_image st) as [r|].
      * destruct Hinv as (i & Hi & Hr & Hinf & Hall).
        exists i. split; [by apply lookup_app_l_Some|].
        split; [exact Hr|]. split; [exact Hinf|].
        intros j img' dj Hj Hdj.
        apply lookup_app_Some in Hj as [Hj|[Hge Hj]]; [by eapply Hall|].
        destruct (j - length seen)%nat as [|k] eqn:Hk; [|done].
        injection Hj as <-. rewrite Hd in Hdj. injection Hdj as <-.
        split; [exact Hlt|]. apply lookup_lt_Some in Hi. lia.
      * destruct Hinv as [Hinf Hnone]. split; [exact Hinf|].
        intros img' dj Hin Hdj.
        apply elem_of_app in Hin as [Hin|Hin]; [by eapply Hnone|].
        apply list_elem_of_singleton in Hin as ->.
        rewrite Hd in Hdj. injection Hdj as <-. by rewrite <- Hinf.
  - destruct Hs as [-> ->].
    destruct (closest_image st) as [r|].
    + destruct Hinv as (i & Hi & Hr & Hinf & Hall).
      exists i. split; [by apply lookup_app_l_Some|].
      split; [exact Hr|]. split; [exact Hinf|].
      intros j img' dj Hj Hdj.
      apply lookup_app_Some in Hj as [Hj|[Hge Hj]]; [by eapply Hall|].
      destruct (j - length seen)%nat as [|k] eqn:Hk; [|done].
      injection Hj as <-. congruence.
    + destruct Hinv as [Hinf Hnone]. split; [exact Hinf|].
      intros img' dj Hin Hdj.
      apply elem_of_app in Hin as [Hin|Hin]; [by eapply Hnone|].
      apply list_elem_of_singleton in Hin as ->. congruence.
Qed.

Lemma best_so_far_loop p c rest : forall seen idx st,
  best_so_far p c seen (min_distance st) (closest_image st) ->
  let st' := search_loop pow p c idx rest st in
  best_so_far p c (seen ++ rest) (min_distance st') (closest_image st').
Proof.
  induction rest as [|img rest IH]; intros seen idx st Hinv; cbn.
  - by rewrite app_nil_r.
  - replace (seen ++ img :: rest) with ((seen ++ [img]) ++ rest)
      by (by rewrite <- app_assoc).
    apply IH. by apply best_so_far_step.
Qed.

(** The candidate [r], at index [i], has the distance [d], which is
    below infinity; no candidate has a distance below [d], and every
    candidate before [r] whose distance is a number has one above [d]. *)
Definition nearest_first (p : Z) (c : float * float) (images : list image_dict)
    (i : nat) (r : image_dict) (d : float) : Prop :=
  images !! i = Some r
  /\ (exists rc, candidate_center p r = Some rc /\ euclidean c rc d)
  /\ fltb d inf = true
  /\ forall j img ic dj,
       images !! j = Some img -> candidate_center p img = Some ic ->
       euclidean c ic dj ->
       fltb dj d = false
       /\ ((j < i)%nat -> is_nan dj = false -> fltb d dj = true).

Lemma first_nearest_euclidean p c images i r d :
  first_nearest p c images i r d -> nearest_first p c images i r d.
Proof.
  intros (Hi & Hr & Hinf & Hall). split; [exact Hi|].
  split; [by apply candidate_distance_euclidean|]. split; [exact Hinf|].
  intros j img ic dj Hj Hic Hdj. apply (Hall j img dj Hj).
  apply candidate_distance_euclidean. by exists ic.
Qed.

Lemma find_closest_image_nearest caption images p c0 cps c :
  page_number (meta caption) = Some p ->
  coordinates (meta caption) = Some c0 ->
  points_or_self c0 = PyList cps ->
  center cps = Some c ->
  match find_closest_image pow caption images with
  | Some r => exists i d, nearest_first p c images i r d
  | None =>
      forall img ic dj, img ∈ images -> candidate_center p img = Some ic ->
        euclidean c ic dj -> fltb dj inf = false
  end.
Proof.
  intros Hp Hc0 Hpts Hc.
  unfold find_closest_image, find_closest_image_logged.
  rewrite Hc0, Hp, Hpts.
  destruct cps as [|q cps]; [done|]. rewrite Hc. cbn [fst].
  pose proof (best_so_far_loop p c images [] 0%nat
                {| min_distance := inf; closest_image := None;
                   found_on_page := 0; log := [] |}) as Hinv.
  cbn zeta in Hinv. rewrite app_nil_l in Hinv.
  specialize (Hinv ltac:(split; [reflexivity|]; intros ? ? []%elem_of_nil)).
  unfold best_so_far in Hinv.
  destruct (closest_image _) as [r|].
  - destruct Hinv as (i & H). exists i, (min_distance
      (search_loop pow p c 0 images
         {| min_distance := inf; closest_image := None;
            found_on_page := 0; log := [] |})).
    by apply first_nearest_euclidean.
  - destruct Hinv as [_ Hnone]. intros img ic dj Hin Hic Hdj.
    apply (Hnone img dj Hin). apply candidate_distance_euclidean.
    by exists ic.
Qed.

End Nearest.

Definition box (x0 y0 x1 y1 : PrimFloat.float) : list point :=
  [PtTuple [coord x0; coord y0]; PtTuple [coord x1; coord y0];
   PtTuple [coord x1; coord y1]; PtTuple [coord x0; coord y1]].
Arguments box (x0 y0 x1 y1)%_float.

Definition image_at (page : Z) (b : pyseq) : image_dict :=
  {| img_image_path := None; img_page_number := page; img_coordinates := b |}.

Definition caption_at (page : Z) (b : pyseq) : element :=
  {| category := "FigureCaption"; text := "Figure 1";
     meta := {| page_number := Some page; coordinates := Some (WithPoints b);
                image_path := None; text_as_html := "" |} |}.

Definition three_images : list image_dict :=
  [image_at 1 (PyList (box (-1) (-1) 1 1));
   image_at 1 (PyList (box 9 9 11 11));
   image_at 1 (PyList (box 99 99 101 101))].

(** Images centred at (0,0), (10,10) and (100,100) and a caption centred at
    (9,9), all on page 1: the image at (10,10) is returned. *)
Example nearest_of_three :
  center (box 8 8 10 10) = Some (lit 9, lit 9)
  /\ center (box (-1) (-1) 1 1) = Some (lit 0, lit 0)
  /\ center (box 9 9 11 11) = Some (lit 10, lit 10)
  /\ center (box 99 99 101 101) = Some (lit 100, lit 100)
  /\ find_closest_image rounded_pow (caption_at 1 (PyList (box 8 8 10 10)))
       three_images
     = Some (image_at 1 (PyList (box 9 9 11 11))).
Proof. repeat split; vm_compute; reflexivity. Qed.

(** Two candidates equally near: the first in input order is returned. *)
Example tie_goes_to_first :
  find_closest_image rounded_pow (caption_at 1 (PyList (box 8 8 10 10)))
    [image_at 1 (PyList (box 13 8 15 10)); image_at 1 (PyList (box 3 8 5 10))]
  = Some (image_at 1 (PyList (box 13 8 15 10))).
Proof. vm_compute. reflexivity. Qed.

(** The vertical offset counts: of a candidate 1 to the right and 50 below
    and a candidate 5 to the right, the second is returned. *)
Example vertical_offset_counts :
  find_closest_image rounded_pow (caption_at 1 (PyList (box 8 8 10 10)))
    [image_at 1 (PyList (box 9 58 11 60)); image_at 1 (PyList (box 13 8 15 10))]
  = Some (image_at 1 (PyList (box 13 8 15 10))).
Proof. vm_compute. reflexivity. Qed.

(** C2, amended. The centre [find_closest_image] computes for a box is the
    midpoint of the least and greatest X and of the least and greatest Y of
    its points, for the caption and for every candidate alike, sum and
    quotient being those of floats.  For a caption with a centre [c] the result is
    the same-page candidate whose distance to [c], computed in floats as
    [(|dx| ** 2 + |dy| ** 2) ** 0.5], is least among the candidates for
    which that computation raises nothing, the first of them in input order
    when several have that distance; its distance is below infinity, and
    the result is none only when no candidate has a distance below
    infinity.  This holds for every C library behind [**]; with a correctly
    rounded one, images centred at (0,0), (10,10) and (100,100) and a
    caption centred at (9,9) give the image at (10,10). *)
Theorem nearest_candidate (pow : float -> float -> float * errno)
    (caption : element) (images : list image_dict)
    (p : Z) (c0 : coords_attr) (cps : list point) (c : float * float) :
  page_number (meta caption) = Some p ->
  coordinates (meta caption) = Some c0 ->
  points_or_self c0 = PyList cps ->
  center cps = Some c ->
  box_midpoint cps c
  /\ (forall img ic, candidate_center p img = Some ic ->
        exists ps, img_coordinates img = PyList ps /\ box_midpoint ps ic)
  /\ match find_closest_image pow caption images with
     | Some r => exists i d, nearest_first pow p c images i r d
     | None =>
         forall img ic dj, img ∈ images -> candidate_center p img = Some ic ->
           euclidean pow c ic dj -> fltb dj inf = false
     end
  /\ find_closest_image rounded_pow (caption_at 1 (PyList (box 8 8 10 10)))
       three_images
     = Some (image_at 1 (PyList (box 9 9 11 11))).
Proof.
  intros Hp Hc0 Hpts Hc.
  split; [by apply center_box_midpoint|]. split; [|split].
  - intros img ic. unfold candidate_center.
    case_bool_decide as Hpage; [|done].
    destruct (img_coordinates img) as [|[|q ps]|]; try done.
    intros Hic. exists (q :: ps). split; [reflexivity|].
    by apply center_box_midpoint.
  - by eapply find_closest_image_nearest.
  - vm_compute. reflexivity.
Qed.

Lemma nearest_candidate_witness :
  exists i d,
    nearest_first rounded_pow 1 (lit 9, lit 9)
      [image_at 1 (PyList (box 9 58 11 60));
       image_at 1 (PyList (box 13 8 15 10))]
      i (image_at 1 (PyList (box 13 8 15 10))) d.
Proof.
  pose proof (nearest_candidate rounded_pow
    (caption_at 1 (PyList (box 8 8 10 10)))
    [image_at 1 (PyList (box 9 58 11 60));
     image_at 1 (PyList (box 13 8 15 10))]
    1 (WithPoints (PyList (box 8 8 10 10))) (box 8 8 10 10)
    (lit 9, lit 9)
    eq_refl eq_refl eq_refl (proj1 nearest_of_three)) as (_ & _ & H & _).
  rewrite vertical_offset_counts in H. exact H.
Defined.

(** *** Where the computed distance and the distance part *)

(** The number a float stands for (0 for an infinity and for NaN). *)
Definition exact (x : float) : Q :=
  match x with
  | S754_finite s m e =>
      ((if s then -1 else 1) * inject_Z (Z.pos m) * 2 ^ e)%Q
  | _ => 0%Q
  end.

Definition qmin (a b : Q) : Q := if Qlt_le_dec b a then b else a.
Definition qmax (a b : Q) : Q := if Qlt_le_dec a b then b else a.

(** The midpoint of the least and greatest X and Y of a box, without
    rounding. *)
Definition exact_center (ps : list point) : option (Q * Q) :=
  xs ← mapM (fun p => exact ∘ value <$> components p !! 0%nat) ps;
  ys ← mapM (fun p => exact ∘ value <$> components p !! 1%nat) ps;
  match xs, ys with
  | x :: xs', y :: ys' =>
      Some (((foldl qmin x xs' + foldl qmax x xs') / 2)%Q,
            ((foldl qmin y ys' + foldl qmax y ys') / 2)%Q)
  | _, _ => None
  end.

(** The square of the Euclidean distance, without rounding. *)
Definition exact_distance_sq (c i : Q * Q) : Q :=
  ((c.1 - i.1) ^ 2 + (c.2 - i.2) ^ 2)%Q.

Definition caption_mid : list point := box 309.7 127.1 354.5 141.4.
Definition image_left : list point := box 86.8 127.1 131.6 141.4.
Definition image_right : list point := box 532.6 127.1 577.4 141.4.
Definition image_far : list point := box 1e200 0 1e200 0.
Definition image_thin : list point := box 1 0 1.0000000000000002 0.

(** C2, as stated, fails, in three ways.  A caption between an image on
    its left and an image on its right, the left one nearer by less than
    the rounding of the centres: the right one is returned.  An
    image, the only candidate, so far that the square of its offset is out
    of the range of floats: nothing is returned, although the image has a
    centre.  And, whatever the C library, an image whose centre rounds to
    the caption's before an image whose centre is the caption's: the first
    is returned, the second being nearer. *)
Lemma computed_distance_decides :
  (find_closest_image rounded_pow (caption_at 1 (PyList caption_mid))
     [image_at 1 (PyList image_left); image_at 1 (PyList image_right)]
   = Some (image_at 1 (PyList image_right))
   /\ exists cc cl cr,
        exact_center caption_mid = Some cc
        /\ exact_center image_left = Some cl
        /\ exact_center image_right = Some cr
        /\ (exact_distance_sq cc cl < exact_distance_sq cc cr)%Q)
  /\ (find_closest_image rounded_pow (caption_at 1 (PyList (box 0 0 0 0)))
        [image_at 1 (PyList image_far)] = None
      /\ candidate_center 1 (image_at 1 (PyList image_far))
         = Some (lit 1e200, lit 0))
  /\ ((forall pow,
         find_closest_image pow (caption_at 1 (PyList (box 1 0 1 0)))
           [image_at 1 (PyList image_thin); image_at 1 (PyList (box 0 0 2 0))]
         = Some (image_at 1 (PyList image_thin)))
      /\ exists cc ct cw,
           exact_center (box 1 0 1 0) = Some cc
           /\ exact_center image_thin = Some ct
           /\ exact_center (box 0 0 2 0) = Some cw
           /\ (exact_distance_sq cc cw < exact_distance_sq cc ct)%Q).
Proof.
  split; [split|split; [split|split]].
  - vm_compute. reflexivity.
  - eexists _, _, _. split; [reflexivity|]. split; [reflexivity|].
    split; [reflexivity|]. vm_compute. reflexivity.
  - vm_compute. reflexivity.
  - vm_compute. reflexivity.
  - intros pow. vm_compute. reflexivity.
  - eexists _, _, _. split; [reflexivity|]. split; [reflexivity|].
    split; [reflexivity|]. vm_compute. reflexivity.
Qed.

End NearestFacts.

(** ** Spatial matcher: coordinates that are not a non-empty list *)

Module GuardFacts.
Import ImageProcessor MatcherFacts NearestFacts.

Section Guard.

Variable pow : float -> float -> float * errno.

(** C10. A caption whose coordinates are present but are not a non-empty
    list (a tuple of tuples, an empty list, [None]) makes
    [find_closest_image] log one error and return none, whatever the
    candidates; and an image that is returned always has a non-empty list
    for coordinates, so a candidate with anything else is never returned. *)
Theorem unexpected_coordinates (caption : element) (images : list image_dict) :
  (forall c, coordinates (meta caption) = Some c ->
     nonempty_list (points_or_self c) = false ->
     exists e, find_closest_image_logged pow caption images = (None, [e])
               /\ is_error e = true)
  /\ (forall r, find_closest_image pow caption images = Some r ->
        nonempty_list (img_coordinates r) = true)
  /\ (forall img, nonempty_list (img_coordinates img) = false ->
        find_closest_image pow caption images <> Some img).
Proof.
  assert (forall r, find_closest_image pow caption images = Some r ->
            nonempty_list (img_coordinates r) = true) as Hres.
  { intros r Hr.
    apply (find_closest_image_eligible pow) in Hr as (p & _ & _ & _ & Hne).
    exact Hne. }
  split; [|split; [exact Hres|]].
  - intros c Hc Hbad. unfold find_closest_image_logged. rewrite Hc.
    destruct (page_number (meta caption)) as [p|].
    + destruct (points_or_self c) as [|[|q ps]|]; try done;
        by exists ErrCaptionFormat.
    + by exists ErrCaptionMissing.
  - intros img Hbad Hr. apply Hres in Hr. congruence.
Qed.

End Guard.

Definition tuple_box (x0 y0 x1 y1 : PrimFloat.float) : pyseq :=
  PyTuple (box x0 y0 x1 y1).
Arguments tuple_box (x0 y0 x1 y1)%_float.

(** A caption in the canonical tuple-of-tuples form next to a well-formed
    image on the same page: an error is logged and nothing is returned. *)
Lemma unexpected_coordinates_witness :
  exists e,
    find_closest_image_logged rounded_pow (caption_at 1 (tuple_box 8 8 10 10))
      [image_at 1 (PyList (box 9 9 11 11))] = (None, [e])
    /\ is_error e = true.
Proof.
  apply (proj1 (unexpected_coordinates rounded_pow (caption_at 1 (tuple_box 8 8 10 10))
                  [image_at 1 (PyList (box 9 9 11 11))])
           (WithPoints (tuple_box 8 8 10 10)));
    reflexivity.
Defined.

(** A candidate on page 2 with the caption's own box, and no candidate on
    the caption's page 1: nothing is returned. *)
Lemma page_isolation_witness :
  find_closest_image rounded_pow (caption_at 1 (PyList (box 8 8 10 10)))
    [image_at 2 (PyList (box 8 8 10 10))] = None.
Proof.
  apply (proj2 (page_isolation rounded_pow (caption_at 1 (PyList (box 8 8 10 10)))
                  [image_at 2 (PyList (box 8 8 10 10))])).
  intros img Hin. apply list_elem_of_singleton in Hin as ->. discriminate.
Defined.

End GuardFacts.

(** ** Association index: one key for one box *)

Module KeyFacts.
Import ImageProcessor.

(** The key computed in the orphan loop of
    [generate_caption_image_page_number] (lines 227-238). *)
Definition caption_stage_key (el : element) : option image_key :=
  p ← page_number (meta el);
  c ← coordinates (meta el);
  match coords_for_key (points_or_self c) with
  | KeyOk k => Some (p, k)
  | _ => None
  end.

Definition image_element (page : Z) (c : coords_attr) (path : option string)
    : element :=
  {| category := "Image"; text := "";
     meta := {| page_number := Some page; coordinates := Some c;
                image_path := path; text_as_html := "" |} |}.

(** The same box as a list of lists and as a tuple of tuples. *)
Definition as_lists (pts : list (list coordinate)) : pyseq := PyList (PtList <$> pts).
Definition as_tuples (pts : list (list coordinate)) : pyseq := PyTuple (PtTuple <$> pts).

Lemma tuple_of_tuples_lists pts : tuple_of_tuples (PtList <$> pts) = pts.
Proof.
  unfold tuple_of_tuples. induction pts as [|x pts IH]; cbn; [done|].
  by rewrite IH.
Qed.

Lemma tuple_of_tuples_tuples pts : tuple_of_tuples (PtTuple <$> pts) = pts.
Proof.
  unfold tuple_of_tuples. induction pts as [|x pts IH]; cbn; [done|].
  by rewrite IH.
Qed.

Lemma mapM_as_tuple pts : mapM as_tuple (PtTuple <$> pts) = Some pts.
Proof.
  induction pts as [|x pts IH]; cbn; [done|]. by rewrite IH.
Qed.

Lemma coords_for_key_lists pts : coords_for_key (as_lists pts) = KeyOk pts.
Proof. cbn. by rewrite tuple_of_tuples_lists. Qed.

Lemma coords_for_key_tuples pts : coords_for_key (as_tuples pts) = KeyOk pts.
Proof. cbn. by rewrite mapM_as_tuple. Qed.

(** C6. An image whose box is given as a list of lists and an image with
    the same box given as a tuple of tuples get the same key
    [(page_number, tuple of tuples)] in the encoding stage and in the
    caption stage; so the payload stored by the encoding stage for the one
    is found by the caption stage for the other. *)
Theorem canonical_key (pow : float -> float -> float * errno)
    (path_exists : string -> bool)
    (read_base64 : string -> option string)
    (page : Z) (pts : list (list coordinate)) (path b64 : string) :
  path <> "" -> path_exists path = true -> read_base64 path = Some b64 ->
  let el_list := image_element page (WithPoints (as_lists pts)) (Some path) in
  let el_tuple := image_element page (WithPoints (as_tuples pts)) (Some path) in
  encoding_key el_list = Some (page, pts)
  /\ encoding_key el_tuple = Some (page, pts)
  /\ caption_stage_key el_list = Some (page, pts)
  /\ caption_stage_key el_tuple = Some (page, pts)
  /\ (exists raw_image_list,
        convert_images_to_base64 path_exists read_base64 [el_list]
          = Return (raw_image_list, {[ (page, pts) := b64 ]}))
  /\ generate_caption_image_page_number pow [el_tuple] {[ (page, pts) := b64 ]}
     = Return {[ (page, pts) :=
                   {| base64_data := b64; caption_text := "";
                      bundle_page_number := page |} ]}.
Proof.
  intros Hpath Hexists Hread el_list el_tuple.
  assert (encoding_key el_list = Some (page, pts)) as Hk1
    by (cbn; by rewrite tuple_of_tuples_lists).
  assert (encoding_key el_tuple = Some (page, pts)) as Hk2
    by (cbn; by rewrite tuple_of_tuples_tuples).
  split; [exact Hk1|]. split; [exact Hk2|].
  split; [unfold caption_stage_key; cbn; by rewrite tuple_of_tuples_lists|].
  split; [unfold caption_stage_key; cbn; by rewrite mapM_as_tuple|].
  split.
  - eexists. unfold convert_images_to_base64. cbn [convert_loop].
    unfold convert_step. rewrite Hk1. cbn.
    apply String.eqb_neq in Hpath. rewrite Hpath, Hexists, Hread. cbn.
    rewrite insert_empty. reflexivity.
  - unfold generate_caption_image_page_number. cbn.
    rewrite mapM_as_tuple, lookup_empty, lookup_singleton_eq. cbn.
    rewrite insert_empty. reflexivity.
Qed.

Definition unit_square : list (list coordinate) :=
  [[coord 0; coord 0]; [coord 1; coord 0];
   [coord 1; coord 1]; [coord 0; coord 1]].

Lemma canonical_key_witness :
  encoding_key (image_element 3 (WithPoints (as_lists unit_square)) (Some "fig.jpg"))
  = caption_stage_key
      (image_element 3 (WithPoints (as_tuples unit_square)) (Some "fig.jpg")).
Proof.
  destruct (canonical_key rounded_pow (fun _ => true) (fun _ => Some "aGk=") 3 unit_square
              "fig.jpg" "aGk=" ltac:(discriminate) eq_refl eq_refl)
    as (H1 & _ & _ & H4 & _).
  rewrite H1, H4. reflexivity.
Defined.

End KeyFacts.

(** ** Spatial matcher: every image gets one bundle *)

Module BundleFacts.
Import ImageProcessor MatcherFacts KeyFacts.

(** The coordinates of the element, if it has any, are not a tuple that
    holds a list (hashing such a key raises [TypeError]). *)
Definition hashable (el : element) : Prop :=
  forall c, coordinates (meta el) = Some c ->
    coords_for_key (points_or_self c) <> KeyUnhashable.

(** A bundle made for a caption, and a bundle made for an image left
    without caption. *)
Definition caption_bundle (dict : gmap image_key string)
    (captions : list element) (key : image_key) (b : bundle) : Prop :=
  exists caption,
    caption ∈ captions /\ caption_text b = text caption
    /\ dict !! key = Some (base64_data b) /\ bundle_page_number b = key.1.

Definition orphan_bundle (dict : gmap image_key string) (key : image_key)
    (b : bundle) : Prop :=
  caption_text b = "" /\ base64_data b = default "" (dict !! key)
  /\ bundle_page_number b = key.1.

Definition key_of_some (images : list element) (key : image_key) : Prop :=
  exists el, el ∈ images /\ caption_stage_key el = Some key.

Section Bundles.

Variable pow : float -> float -> float * errno.

Lemma closest_image_key caption images r :
  find_closest_image pow caption (images_for_closest_search images) = Some r ->
  exists k, coords_for_key (img_coordinates r) = KeyOk k
            /\ key_of_some images (img_page_number r, k).
Proof.
  intros (p & _ & Hin & _ & Hne)%find_closest_image_eligible.
  unfold images_for_closest_search in Hin.
  apply list_elem_of_omap in Hin as (el & Hel & Hr).
  destruct (page_number (meta el)) as [pg|] eqn:Hpg; [|done].
  destruct (coordinates (meta el)) as [c|] eqn:Hc; [|done].
  cbn in Hr. injection Hr as <-. cbn in *.
  destruct (points_or_self c) as [|[|q ps]|] eqn:Hpts; try done.
  exists (tuple_of_tuples (q :: ps)). split; [reflexivity|].
  exists el. split; [exact Hel|].
  unfold caption_stage_key. rewrite Hpg, Hc. cbn. by rewrite Hpts.
Qed.

(** The caption loop: it never raises, and every entry it leaves is a
    caption bundle under the key of some image. *)
Definition captioned (images : list element) (dict : gmap image_key string)
    (captions : list element) (d : gmap image_key bundle) : Prop :=
  forall key b, d !! key = Some b ->
    key_of_some images key /\ caption_bundle dict captions key b.

Lemma caption_loop_spec images dict captions cs : forall d,
  (forall caption, caption ∈ cs -> caption ∈ captions) ->
  captioned images dict captions d ->
  exists d',
    for_each (caption_step pow images dict) cs d = Return d'
    /\ captioned images dict captions d'.
Proof.
  induction cs as [|caption cs IH]; intros d Hsub Hd; cbn.
  - by exists d.
  - assert (exists d1, caption_step pow images dict d caption = Return d1
                       /\ captioned images dict captions d1)
      as (d1 & Hstep & Hd1).
    { unfold caption_step.
      destruct (find_closest_image pow caption _) as [r|] eqn:Hr; [|by exists d].
      apply closest_image_key in Hr as (k & Hk & Hkey). rewrite Hk.
      destruct (dict !! (img_page_number r, k)) as [b64|] eqn:Hb64;
        [|by exists d].
      eexists. split; [reflexivity|].
      intros key b [[<- <-]|[_ Hold]]%lookup_insert_Some; [|by apply Hd].
      split; [exact Hkey|]. exists caption.
      split; [apply Hsub; left|]. done. }
    rewrite Hstep. cbn. apply IH; [|exact Hd1].
    intros c Hc. apply Hsub. by right.
Qed.

(** The orphan loop over hashable images: it never raises, keeps the
    entries it finds, adds only orphan bundles, and leaves an entry under
    the key of every image it has gone through. *)
Lemma orphan_loop_spec dict imgs : forall d,
  (forall el, el ∈ imgs -> hashable el) ->
  exists d',
    for_each (orphan_step dict) imgs d = Return d'
    /\ (forall key b, d !! key = Some b -> d' !! key = Some b)
    /\ (forall key b, d' !! key = Some b ->
          d !! key = Some b \/ (orphan_bundle dict key b /\ key_of_some imgs key))
    /\ (forall el key, el ∈ imgs -> caption_stage_key el = Some key ->
          is_Some (d' !! key)).
Proof.
  induction imgs as [|img imgs IH]; intros d Hhash; cbn.
  - exists d. split; [done|]. split; [done|]. split; [by left|].
    intros el key []%elem_of_nil.
  - assert (exists d1, orphan_step dict d img = Return d1
              /\ (forall key b, d !! key = Some b -> d1 !! key = Some b)
              /\ (forall key b, d1 !! key = Some b ->
                    d !! key = Some b
                    \/ (orphan_bundle dict key b
                        /\ caption_stage_key img = Some key))
              /\ (forall key, caption_stage_key img = Some key ->
                    is_Some (d1 !! key)))
      as (d1 & Hstep & Hkeep & Hnew & Hcover).
    { unfold orphan_step, caption_stage_key.
      destruct (page_number (meta img)) as [p|]; cbn;
        [|exists d; by repeat split; auto].
      destruct (coordinates (meta img)) as [c|] eqn:Hc; cbn;
        [|exists d; by repeat split; auto].
      pose proof (Hhash img ltac:(left) c Hc) as Hh.
      destruct (coords_for_key (points_or_self c)) as [k| |];
        [|exists d; by repeat split; auto|done].
      destruct (d !! (p, k)) as [b0|] eqn:Hd.
      - exists d. split; [done|]. split; [done|]. split; [by left|].
        intros key [= <-]. by eexists.
      - eexists. split; [reflexivity|]. split; [|split].
        + intros key b Hb. rewrite lookup_insert_ne; [done|]. intros <-.
          unfold image_key in *. congruence.
        + intros key b [[<- <-]|[_ Hold]]%lookup_insert_Some; [|by left].
          right. done.
        + intros key [= <-]. rewrite lookup_insert_eq. by eexists. }
    destruct (IH d1) as (d' & Hloop & Hkeep' & Hnew' & Hcover').
    { intros el Hel. apply Hhash. by right. }
    exists d'. rewrite Hstep. cbn. split; [exact Hloop|].
    split; [by eauto|]. split.
    + intros key b [Hb|[Ho (el & Hel & Hk)]]%Hnew'.
      * apply Hnew in Hb as [Hb|[Ho Hk]]; [by left|].
        right. split; [exact Ho|]. exists img. split; [left|exact Hk].
      * right. split; [exact Ho|]. exists el. split; [by right|exact Hk].
    + intros el key [->|Hel]%elem_of_cons Hk.
      * destruct (Hcover key Hk) as [b Hb]. exists b. by apply Hkeep'.
      * by eapply Hcover'.
Qed.

Lemma size_le_keys (d : gmap image_key bundle) (l : list image_key) :
  (forall k, is_Some (d !! k) -> k ∈ l) -> (size d <= length l)%nat.
Proof.
  revert d. induction l as [|x l IH]; intros d Hd.
  - assert (d = ∅) as ->; [|by rewrite map_size_empty].
    apply map_empty. intros k. destruct (d !! k) eqn:Hk; [|done].
    exfalso. eapply elem_of_nil, Hd. by eexists.
  - specialize (IH (delete x d)).
    assert (size (delete x d) <= length l)%nat as Hle.
    { apply IH. intros k [b [Hne Hb]%lookup_delete_Some].
      assert (k ∈ x :: l) as Hin by (apply Hd; by exists b).
      apply elem_of_cons in Hin as [->|Hin]; done. }
    rewrite map_size_delete in Hle. cbn [length].
    destruct (d !! x); cbn in Hle; lia.
Qed.

Lemma length_omap_le {A B} (f : A -> option B) (l : list A) :
  (length (omap f l) <= length l)%nat.
Proof.
  induction l as [|a l IH]; cbn; [lia|]. destruct (f a); cbn; lia.
Qed.

Definition images_of (raw : list element) : list element :=
  List.filter (has_category "Image") raw.

Definition captions_of (raw : list element) : list element :=
  List.filter (has_category "FigureCaption") raw.

(** X23. For a stream whose images have hashable coordinates,
    [generate_caption_image_page_number] returns a map in which every
    Image element that carries a page number and coordinates has its key,
    bound to one bundle that is a caption bundle or an orphan bundle (empty
    caption, the payload of the key or the empty string); every key of the
    map is the key of some image; and the map has at most as many entries
    as the stream has images. *)
Theorem bundle_completeness (raw : list element)
    (dict : gmap image_key string) :
  (forall el, el ∈ images_of raw -> hashable el) ->
  exists d,
    generate_caption_image_page_number pow raw dict = Return d
    /\ (forall el key, el ∈ images_of raw -> caption_stage_key el = Some key ->
          exists b, d !! key = Some b
            /\ (caption_bundle dict (captions_of raw) key b
                \/ orphan_bundle dict key b))
    /\ (forall key, is_Some (d !! key) -> key_of_some (images_of raw) key)
    /\ (size d <= length (images_of raw))%nat.
Proof.
  intros Hhash. unfold generate_caption_image_page_number.
  fold (images_of raw). fold (captions_of raw).
  destruct (caption_loop_spec (images_of raw) dict (captions_of raw)
              (captions_of raw) ∅) as (d1 & Hcap & Hd1).
  { done. }
  { intros key b Hb. by rewrite lookup_empty in Hb. }
  destruct (orphan_loop_spec dict (images_of raw) d1 Hhash)
    as (d & Horph & Hkeep & Hnew & Hcover).
  exists d. rewrite Hcap. cbn. split; [exact Horph|].
  assert (forall key, is_Some (d !! key) -> key_of_some (images_of raw) key)
    as Hkeys.
  { intros key [b [Hb|[_ Hk]]%Hnew]; [|exact Hk]. by apply Hd1 in Hb as [? _]. }
  split; [|split; [exact Hkeys|]].
  - intros el key Hel Hk. destruct (Hcover el key Hel Hk) as [b Hb].
    exists b. split; [exact Hb|].
    apply Hnew in Hb as [Hb|[Ho _]]; [left|by right].
    by apply Hd1 in Hb as [_ ?].
  - etrans; [|apply (length_omap_le caption_stage_key)].
    apply size_le_keys. intros key (el & Hel & Hk)%Hkeys.
    apply list_elem_of_omap. by exists el.
Qed.

End Bundles.

(** A captioned image on page 1 followed by an image in tuple form on
    page 2 that has no caption; only the first has a payload. *)
Definition example_stream : list element :=
  [image_element 1 (WithPoints (PyList (NearestFacts.box 9 9 11 11))) None;
   NearestFacts.caption_at 1 (PyList (NearestFacts.box 8 8 10 10));
   image_element 2 (WithPoints (PyTuple (NearestFacts.box 0 0 4 4))) None].

Definition example_payloads : gmap image_key string :=
  {[ (1, tuple_of_tuples (NearestFacts.box 9 9 11 11)) := "aGk=" ]}.

Lemma example_stream_hashable el : el ∈ images_of example_stream -> hashable el.
Proof.
  cbn. intros Hel c.
  repeat (apply elem_of_cons in Hel as [->|Hel]);
    [| |by apply elem_of_nil in Hel];
    intros [= <-]; vm_compute; discriminate.
Qed.

(** The first image gets the caption and its payload, the second an
    orphan bundle with an empty payload. *)
Definition example_bundle_at (key : image_key) : option bundle :=
  match generate_caption_image_page_number rounded_pow example_stream example_payloads with
  | Return d => d !! key
  | Raise _ => None
  end.

Example example_bundles :
  example_bundle_at (1, tuple_of_tuples (NearestFacts.box 9 9 11 11))
  = Some {| base64_data := "aGk="; caption_text := "Figure 1";
            bundle_page_number := 1 |}
  /\ example_bundle_at (2, tuple_of_tuples (NearestFacts.box 0 0 4 4))
     = Some {| base64_data := ""; caption_text := ""; bundle_page_number := 2 |}.
Proof. split; vm_compute; reflexivity. Qed.

Lemma bundle_completeness_witness :
  exists d,
    generate_caption_image_page_number rounded_pow example_stream example_payloads = Return d
    /\ (size d <= 2)%nat.
Proof.
  destruct (bundle_completeness rounded_pow example_stream example_payloads
              example_stream_hashable) as (d & Hd & _ & _ & Hsize).
  exists d. split; [exact Hd|exact Hsize].
Defined.

(** An image whose points are lists held in a tuple, as
    [([0, 0], [4, 0], [4, 4], [0, 4])]. *)
Definition listed_points : list point :=
  [PtList [coord 0; coord 0]; PtList [coord 4; coord 0];
   PtList [coord 4; coord 4]; PtList [coord 0; coord 4]].

Definition unhashable_stream : list element :=
  [image_element 1 (WithPoints (PyList (NearestFacts.box 9 9 11 11))) None;
   image_element 2 (WithPoints (PyTuple listed_points)) None].

(** C4. The code at the failing input: an image with a list of points on
    page 1 and an image whose points are lists held in a tuple on page 2.
    Line 228 keeps the tuple as it is, the membership test of line 240
    hashes it outside the [try] of lines 229-233 and [TypeError] escapes:
    no map is returned, so neither image is in a bundle, although both
    carry a page number and coordinates, the encoding stage gives the
    second one a key, and the first one alone gets its orphan bundle. *)
Lemma unhashable_stream_raises :
  generate_caption_image_page_number rounded_pow unhashable_stream ∅
  = Raise TypeError
  /\ images_of unhashable_stream = unhashable_stream
  /\ (forall el, el ∈ unhashable_stream ->
        is_Some (page_number (meta el)) /\ is_Some (coordinates (meta el)))
  /\ (exists el key, unhashable_stream !! 1%nat = Some el
        /\ encoding_key el = Some key)
  /\ exists el key d,
       unhashable_stream !! 0%nat = Some el
       /\ generate_caption_image_page_number rounded_pow [el] ∅ = Return d
       /\ caption_stage_key el = Some key
       /\ d !! key = Some {| base64_data := ""; caption_text := "";
                             bundle_page_number := 1 |}.
Proof.
  split; [reflexivity|]. split; [reflexivity|]. split.
  { intros el Hel. repeat (apply elem_of_cons in Hel as [->|Hel]);
      [by split; eexists|by split; eexists|by apply elem_of_nil in Hel]. }
  split.
  { eexists _, _. split; reflexivity. }
  eexists _, _, _. split; [reflexivity|]. split; [reflexivity|].
  split; [reflexivity|]. vm_compute. reflexivity.
Qed.

End BundleFacts.

(** ** Retry helper: bounded attempts and backoff *)

Module RetryFacts.
Import Summarizer.

Definition w0 : world := {| calls := 0; sleeps := [] |}.

(** Seconds suggested by the server, an absent suggestion counting for 0. *)
Definition seconds (retry_delay : option Z) : Z := default 0 retry_delay.

Definition non_decreasing (l : list Z) : Prop :=
  forall i a b, l !! i = Some a -> l !! S i = Some b -> a <= b.

Lemma wait_time_max retries retry_delay :
  wait_time retries retry_delay
  = Z.max (2 ^ Z.of_nat retries) (seconds retry_delay).
Proof.
  unfold wait_time, seconds. destruct retry_delay as [s|]; cbn; [done|].
  assert (0 < 2 ^ Z.of_nat retries) by (apply Z.pow_pos_nonneg; lia). lia.
Qed.

(** The delays slept when the calls numbered [first_call], [first_call + 1],
    ... are rate-limited with the hints [hint] and [retries] retries
    happened before. *)
Definition delays (hint : nat -> option Z) (first_call retries n : nat)
    : list Z :=
  (fun i => wait_time (retries + S i) (hint (first_call + i)%nat)) <$> seq 0 n.

Lemma delays_S hint first_call retries n :
  delays hint first_call retries (S n)
  = wait_time (S retries) (hint first_call)
    :: delays hint (S first_call) (S retries) n.
Proof.
  unfold delays. cbn [seq fmap list_fmap]. f_equal.
  - by rewrite Nat.add_0_r, Nat.add_1_r.
  - rewrite <- seq_shift, <- list_fmap_compose. apply list_fmap_ext.
    intros i j _. cbn. f_equal; [lia|f_equal; lia].
Qed.

Section Retry.

Context {P : Type}.
Variable model : nat -> P -> response.
Variable content : P.
Variables element_type element_key : string.

(** Rate-limited on every call: all [remaining] attempts are made, each is
    followed by a sleep, and the "failed" sentinel is returned. *)
Lemma retry_loop_exhausted (hint : nat -> option Z) remaining :
  forall retries w,
  (forall n, model n content = ResourceExhausted (hint n)) ->
  retry_loop model content element_type element_key remaining retries w
  = (failed_sentinel element_type element_key,
     {| calls := calls w + remaining;
        sleeps := sleeps w ++ delays hint (calls w) retries remaining |}).
Proof.
  induction remaining as [|remaining IH]; intros retries w Hlimit.
  - cbn. rewrite Nat.add_0_r, app_nil_r. by destruct w.
  - cbn [retry_loop]. unfold call. rewrite Hlimit.
    rewrite IH by exact Hlimit. unfold sleep. cbn [calls sleeps].
    rewrite delays_S, <- app_assoc. cbn [app].
    do 2 f_equal. lia.
Qed.

(** Rate-limited [k] times, then answered: the answer is returned after
    [k] sleeps. *)
Lemma retry_loop_recovers (hint : nat -> option Z) (t : string) k :
  forall remaining retries w,
  (k < remaining)%nat ->
  (forall i, (i < k)%nat ->
     model (calls w + i)%nat content = ResourceExhausted (hint (calls w + i)%nat)) ->
  model (calls w + k)%nat content = Text t ->
  retry_loop model content element_type element_key remaining retries w
  = (t, {| calls := calls w + S k;
           sleeps := sleeps w ++ delays hint (calls w) retries k |}).
Proof.
  induction k as [|k IH]; intros remaining retries w Hlt Hlimit Hanswer;
    destruct remaining as [|remaining]; try lia; cbn [retry_loop]; unfold call.
  - rewrite Nat.add_0_r in Hanswer. rewrite Hanswer. cbn.
    by rewrite app_nil_r, Nat.add_1_r.
  - pose proof (Hlimit 0%nat ltac:(lia)) as H0. rewrite Nat.add_0_r in H0.
    rewrite H0.
    rewrite (IH remaining); unfold sleep; cbn [calls sleeps].
    + rewrite delays_S, <- app_assoc. cbn [app]. do 2 f_equal. lia.
    + lia.
    + intros i Hi. replace (S (calls w) + i)%nat with (calls w + S i)%nat by lia.
      apply Hlimit. lia.
    + replace (S (calls w) + k)%nat with (calls w + S k)%nat by lia.
      exact Hanswer.
Qed.

Lemma sentinels_differ ty key ty' key' :
  failed_sentinel ty key <> error_sentinel ty' key'.
Proof. discriminate. Qed.

Lemma delays_non_decreasing hint first_call retries n :
  (forall i, seconds (hint (first_call + i)%nat)
             <= seconds (hint (first_call + S i)%nat)) ->
  non_decreasing (delays hint first_call retries n).
Proof.
  intros Hmono i a b Ha Hb. unfold delays in *.
  apply list_lookup_fmap_Some in Ha as (x & -> & Hx).
  apply list_lookup_fmap_Some in Hb as (y & -> & Hy).
  apply lookup_seq in Hx as [-> _]. apply lookup_seq in Hy as [-> _].
  cbn. rewrite !wait_time_max. specialize (Hmono i).
  assert (2 ^ Z.of_nat (retries + S i) <= 2 ^ Z.of_nat (retries + S (S i)))
    by (apply Z.pow_le_mono_r; lia).
  lia.
Qed.

End Retry.

(** The first rate-limit error suggests 100 seconds, the later ones
    nothing. *)
Definition hinted_once (n : nat) (_ : unit) : response :=
  ResourceExhausted (if bool_decide (n = 0%nat) then Some 100 else None).

(** C5, as stated, fails: the operation is rate-limited on every call, the
    server suggests 100 seconds with the first error only, and the sleep
    before the second attempt, 100 seconds, is followed by a sleep of 4
    seconds before the third. *)
Lemma backoff_not_monotone :
  (forall n, exists h, hinted_once n tt = ResourceExhausted h)
  /\ take 2 (sleeps (make_llm_call_with_retry_multimodal hinted_once tt
                       "image" "k" 5 w0).2)
     = [100; 4]
  /\ ~ non_decreasing
        (sleeps (make_llm_call_with_retry_multimodal hinted_once tt
                   "image" "k" 5 w0).2).
Proof.
  split; [intros n; by eexists|]. split; [reflexivity|].
  intros H. specialize (H 0%nat 100 4 eq_refl eq_refl). lia.
Qed.

Lemma lookup_delays hint first_call retries n i s :
  delays hint first_call retries n !! i = Some s ->
  s = Z.max (2 ^ Z.of_nat (retries + S i))
        (seconds (hint (first_call + i)%nat))
  /\ (i < n)%nat.
Proof.
  unfold delays. intros (x & -> & Hx)%list_lookup_fmap_Some.
  apply lookup_seq in Hx as [-> Hi]. by rewrite wait_time_max.
Qed.

(** C5, amended. With [max_retries = 5] and an operation rate-limited on
    every call, 5 calls are made and no more; every sleep of the run lasts
    [max(2^i, seconds suggested by the server)], [i] being the number of
    the attempt it follows, and a sleep goes before each of the 4 retries;
    the sleeps of the run are non-decreasing when the suggested seconds are
    (an absent suggestion counting for 0); the "failed" sentinel, which
    differs from every "error" sentinel, is returned and nothing is
    raised. *)
Theorem bounded_backoff {P : Type} (model : nat -> P -> response)
    (content : P) (element_type element_key : string) (w : world)
    (hint : nat -> option Z) :
  (forall n, model n content = ResourceExhausted (hint n)) ->
  let run :=
    make_llm_call_with_retry_multimodal model content element_type
      element_key 5 w in
  let slept := drop (length (sleeps w)) (sleeps run.2) in
  run.1 = failed_sentinel element_type element_key
  /\ (forall ty key, run.1 <> error_sentinel ty key)
  /\ calls run.2 = (calls w + 5)%nat
  /\ take (length (sleeps w)) (sleeps run.2) = sleeps w
  /\ (forall i s, slept !! i = Some s ->
        s = Z.max (2 ^ Z.of_nat (S i)) (seconds (hint (calls w + i)%nat)))
  /\ (forall i, (i < 4)%nat -> is_Some (slept !! i))
  /\ ((forall i, seconds (hint (calls w + i)%nat)
                 <= seconds (hint (calls w + S i)%nat)) ->
      non_decreasing slept).
Proof.
  intros Hlimit run slept. subst slept run.
  unfold make_llm_call_with_retry_multimodal.
  rewrite (retry_loop_exhausted model content element_type element_key hint)
    by exact Hlimit.
  cbn [fst snd calls sleeps].
  rewrite drop_app_length, take_app_length.
  split; [reflexivity|]. split; [intros ty key; apply sentinels_differ|].
  split; [reflexivity|]. split; [reflexivity|]. split; [|split].
  - intros i s Hs. by apply lookup_delays in Hs as [-> _].
  - intros i Hi. apply lookup_lt_is_Some. unfold delays.
    rewrite length_fmap, length_seq. lia.
  - intros Hmono. by apply delays_non_decreasing.
Qed.

Lemma bounded_backoff_witness :
  (make_llm_call_with_retry_multimodal hinted_once tt "image" "k" 5 w0).1
  = failed_sentinel "image" "k"
  /\ calls (make_llm_call_with_retry_multimodal hinted_once tt "image" "k" 5 w0).2
     = 5%nat.
Proof.
  destruct (bounded_backoff hinted_once tt "image" "k" w0
              (fun n => if bool_decide (n = 0%nat) then Some 100 else None)
              (fun n => eq_refl))
    as (Hr & _ & Hc & _).
  split; [exact Hr|exact Hc].
Defined.

End RetryFacts.

(** ** Batch loops: text and table *)

Module BatchFacts.
Import Summarizer RetryFacts.

(** What the model answers to the items of a batch when the first of them
    is sent with the call numbered [first_call]: one call per item. *)
Fixpoint answers (model : nat -> string -> response) (first_call : nat)
    (items : list string) : list response :=
  match items with
  | [] => []
  | item :: rest => model first_call item :: answers model (S first_call) rest
  end.

Definition raised (r : response) : bool :=
  match r with
  | Text _ => false
  | _ => true
  end.

(** The slot of an item given the answer to its call. *)
Definition slot (sentinel : string -> string) (item : string) (r : response)
    : string :=
  match r with
  | Text summary => summary
  | _ => sentinel item
  end.

Lemma length_answers model first_call items :
  length (answers model first_call items) = length items.
Proof.
  revert first_call. induction items as [|item rest IH]; intros c; cbn; [done|].
  by rewrite IH.
Qed.

Lemma summarize_each_spec model sentinel items :
  forall summaries counter w,
  summarize_each model sentinel items summaries counter w
  = (summaries ++ zip_with (slot sentinel) items (answers model (calls w) items),
     (counter + length (List.filter raised (answers model (calls w) items)))%nat,
     {| calls := calls w + length items; sleeps := sleeps w |}).
Proof.
  induction items as [|item rest IH]; intros summaries counter w.
  - cbn. rewrite app_nil_r, !Nat.add_0_r. by destruct w.
  - cbn [summarize_each answers zip_with]. unfold call.
    destruct (model (calls w) item) as [t| |]; rewrite IH;
      cbn [calls sleeps slot raised List.filter length];
      rewrite <- app_assoc; cbn [app];
      rewrite ?Nat.add_succ_r, ?Nat.add_succ_l; reflexivity.
Qed.

Lemma generate_table_text_summaries_spec model_text model_table texts tables w :
  let r := generate_table_text_summaries model_text model_table texts tables w in
  let text_answers := answers model_text (calls w) texts in
  let table_answers := answers model_table (calls w + length texts) tables in
  text_summaries r = zip_with (slot text_sentinel) texts text_answers
  /\ table_summaries r = zip_with (slot table_sentinel) tables table_answers
  /\ text_exception_counter r = length (List.filter raised text_answers)
  /\ table_exception_counter r = length (List.filter raised table_answers)
  /\ final_world r
     = {| calls := calls w + length texts + length tables; sleeps := sleeps w |}.
Proof.
  unfold generate_table_text_summaries. rewrite !summarize_each_spec.
  cbn. repeat split; reflexivity.
Qed.

Lemma lookup_slots model sentinel items : forall first_call i item,
  items !! i = Some item ->
  zip_with (slot sentinel) items (answers model first_call items) !! i
  = Some match model (first_call + i)%nat item with
         | Text summary => summary
         | _ => sentinel item
         end.
Proof.
  induction items as [|x rest IH]; intros c i item Hi; [done|].
  destruct i as [|i]; cbn [answers zip_with] in *.
  - injection Hi as ->. rewrite Nat.add_0_r. by destruct (model c item).
  - change ((?a :: ?l) !! S i) with (l !! i).
    rewrite (IH (S c) i item Hi). by rewrite Nat.add_succ_r.
Qed.

End BatchFacts.

(** ** Batch loop: images *)

Module ImageBatchFacts.
Import Summarizer RetryFacts BatchFacts.

(** How a call through the retry helper ends. *)
Inductive attempt :=
  | Answered (t : string)
  | Refused          (* an exception other than a rate limit *)
  | Exhausted.       (* rate-limited [max_retries] times *)

Fixpoint retry_outcome {P : Type} (model : nat -> P -> response) (content : P)
    (remaining first_call : nat) : attempt :=
  match remaining with
  | O => Exhausted
  | S remaining =>
      match model first_call content with
      | Text t => Answered t
      | ResourceExhausted _ =>
          retry_outcome model content remaining (S first_call)
      | OtherException => Refused
      end
  end.

Definition render (element_type element_key : string) (a : attempt) : string :=
  match a with
  | Answered t => t
  | Refused => error_sentinel element_type element_key
  | Exhausted => failed_sentinel element_type element_key
  end.

Lemma retry_loop_outcome {P : Type} (model : nat -> P -> response)
    (content : P) ty key remaining : forall retries w,
  (retry_loop model content ty key remaining retries w).1
  = render ty key (retry_outcome model content remaining (calls w)).
Proof.
  induction remaining as [|remaining IH]; intros retries w; cbn; [done|].
  destruct (model (calls w) content) as [t|d|]; cbn; [done| |done].
  by rewrite IH.
Qed.

Lemma retry_outcome_answered {P : Type} (model : nat -> P -> response)
    (content : P) remaining t : forall first_call,
  retry_outcome model content remaining first_call = Answered t ->
  exists n, model n content = Text t.
Proof.
  induction remaining as [|remaining IH]; intros c; cbn; [done|].
  destruct (model c content) as [t'|d|] eqn:Hm; [|by apply IH|done].
  intros [= <-]. by exists c.
Qed.

Lemma error_sentinel_looks_failed key :
  looks_failed (error_sentinel "image" key) = true.
Proof. reflexivity. Qed.

Lemma failed_sentinel_looks_failed key :
  looks_failed (failed_sentinel "image" key) = true.
Proof. unfold looks_failed. apply orb_true_iff. right. reflexivity. Qed.

Definition item : Type := ImageProcessor.image_key * image_info.

Section Images.

Variable bytes : Type.
Variable b64decode : string -> option bytes.
Variable str_page : Z -> string.
Variable str_key : ImageProcessor.image_key -> string.
Variable model : nat -> prompt_parts bytes -> response.


(** [None]: the payload could not be decoded, the model was not called. *)
Definition image_outcome (it : item) (w : world) : option attempt :=
  match b64decode (info_base64_data it.2) with
  | Some decoded =>
      Some (retry_outcome model (make_prompt bytes str_page it.2 decoded) 5
              (calls w))
  | None => None
  end.

Definition image_slot (it : item) (o : option attempt) : string :=
  match o with
  | Some a => render "image" (element_key str_page str_key it.1 it.2) a
  | None => processing_sentinel str_key it.1
  end.

(** The outcomes of the items of a batch, each in the world left by the
    items before it. *)
Fixpoint image_outcomes (items : list item) (w : world) : list (option attempt) :=
  match items with
  | [] => []
  | it :: rest =>
      image_outcome it w
      :: image_outcomes rest
           (summarize_image bytes b64decode str_page str_key model it.1 it.2 w).2
  end.

(** The item failed: its slot is a sentinel. *)
Definition failed (o : option attempt) : bool :=
  match o with
  | Some (Answered _) => false
  | _ => true
  end.

(** The item is counted by line 105 or line 111. *)
Definition counted (o : option attempt) : bool :=
  match o with
  | Some (Answered t) => looks_failed t
  | _ => true
  end.

Lemma summarize_image_spec (it : item) w :
  let r := summarize_image bytes b64decode str_page str_key model it.1 it.2 w in
  r.1.1 = image_slot it (image_outcome it w)
  /\ r.1.2 = counted (image_outcome it w).
Proof.
  unfold summarize_image, image_outcome, image_slot,
    make_llm_call_with_retry_multimodal.
  destruct (b64decode (info_base64_data it.2)) as [decoded|]; [|done].
  pose proof (retry_loop_outcome model
                (make_prompt bytes str_page it.2 decoded) "image"
                (element_key str_page str_key it.1 it.2) 5 0 w) as Hr.
  destruct (retry_loop _ _ _ _ _ _ _) as [summary w']. cbn [fst snd] in *.
  subst summary.
  split; [reflexivity|].
  destruct (retry_outcome _ _ _ _); cbn [render counted];
    auto using error_sentinel_looks_failed, failed_sentinel_looks_failed.
Qed.

Lemma summarize_images_spec items : forall summaries counter w,
  let r :=
    summarize_images bytes b64decode str_page str_key model items summaries
      counter w in
  r.1.1 = summaries ++ zip_with image_slot items (image_outcomes items w)
  /\ r.1.2 = (counter + length (List.filter counted (image_outcomes items w)))%nat.
Proof.
  induction items as [|[key info] rest IH]; intros summaries counter w.
  - cbn. by rewrite app_nil_r, Nat.add_0_r.
  - cbn [summarize_images image_outcomes zip_with].
    destruct (summarize_image_spec (key, info) w) as [Hslot Hcount].
    cbn [fst snd] in *.
    destruct (summarize_image bytes b64decode str_page str_key model key info w)
      as [[summary flag] w'].
    cbn [fst snd] in *. subst summary flag.
    destruct (IH (summaries ++ [image_slot (key, info) (image_outcome (key, info) w)])
                (if counted (image_outcome (key, info) w)
                 then S counter else counter) w') as [-> ->].
    split; [by rewrite <- app_assoc|].
    cbn [List.filter]. destruct (counted _); cbn [length]; lia.
Qed.

(** The calls made only grow. *)
Lemma retry_loop_calls {P : Type} (m : nat -> P -> response) (content : P)
    ty key remaining : forall retries w,
  (calls w <= calls (retry_loop m content ty key remaining retries w).2)%nat.
Proof.
  induction remaining as [|remaining IH]; intros retries w; cbn; [lia|].
  destruct (m (calls w) content) as [t|d|]; cbn; [lia| |lia].
  etrans; [|apply IH]. cbn. lia.
Qed.

Lemma summarize_image_calls_le key info w :
  (calls w
   <= calls (summarize_image bytes b64decode str_page str_key model key info w).2)%nat.
Proof.
  unfold summarize_image, make_llm_call_with_retry_multimodal.
  destruct (b64decode (info_base64_data info)) as [decoded|]; [|done].
  pose proof (retry_loop_calls model (make_prompt bytes str_page info decoded)
                "image" (element_key str_page str_key key info) 5 0 w) as H.
  by destruct (retry_loop _ _ _ _ _ _ _).
Qed.

Lemma summarize_images_calls_le items : forall summaries counter w,
  (calls w
   <= calls (summarize_images bytes b64decode str_page str_key model items
               summaries counter w).2)%nat.
Proof.
  induction items as [|[key info] rest IH]; intros summaries counter w;
    cbn [summarize_images]; [done|].
  pose proof (summarize_image_calls_le key info w) as H.
  destruct (summarize_image _ _ _ _ _ _ _ _) as [[summary flag] w'].
  etrans; [exact H|apply IH].
Qed.

Lemma summarize_images_world items : forall s1 c1 s2 c2 w,
  (summarize_images bytes b64decode str_page str_key model items s1 c1 w).2
  = (summarize_images bytes b64decode str_page str_key model items s2 c2 w).2.
Proof.
  induction items as [|[key info] rest IH]; intros s1 c1 s2 c2 w;
    cbn [summarize_images]; [done|].
  destruct (summarize_image _ _ _ _ _ _ _ _) as [[summary flag] w'].
  apply IH.
Qed.

(** The outcome of the item at index [i] is that of the item in the world
    left by the items before it. *)
Lemma lookup_image_outcomes items : forall i it w,
  items !! i = Some it ->
  let before :=
    (summarize_images bytes b64decode str_page str_key model (take i items)
       [] 0 w).2 in
  (calls w <= calls before)%nat
  /\ image_outcomes items w !! i = Some (image_outcome it before).
Proof.
  induction items as [|[key info] rest IH]; intros i it w Hi; [done|].
  destruct i as [|i]; cbn in Hi.
  - injection Hi as <-. cbn. done.
  - cbn [take image_outcomes summarize_images lookup list_lookup].
    destruct (IH i it
                (summarize_image bytes b64decode str_page str_key model key
                   info w).2 Hi) as [Hle Ho].
    cbn zeta in *. cbn [fst snd].
    pose proof (summarize_image_calls_le key info w) as H.
    destruct (summarize_image _ _ _ _ _ _ _ _) as [[summary flag] w'].
    cbn [snd] in *.
    rewrite (summarize_images_world (take i rest) _ _ [] 0%nat w').
    split; [lia|exact Ho].
Qed.

Lemma length_image_outcomes items : forall w,
  length (image_outcomes items w) = length items.
Proof.
  induction items as [|it rest IH]; intros w; cbn; [done|]. by rewrite IH.
Qed.

End Images.

End ImageBatchFacts.

(** ** Batch summarization: retries, cardinality and the failure counter *)

Module BatchClaims.
Import Summarizer RetryFacts BatchFacts ImageBatchFacts.

(** A model that is rate-limited on its first call and answers afterwards. *)
Definition flaky {P : Type} (n : nat) (_ : P) : response :=
  if bool_decide (n = 0%nat) then ResourceExhausted None else Text "summary".

(** C1. The code at the failing input: one text, and a model whose first
    call is rate-limited.  [generate_table_text_summaries] does not retry
    the call; the sentinel of the text is produced after one call and no
    sleep, although the same call made through the retry helper, as the
    image loop makes its calls, is answered at the second attempt. *)
Lemma text_call_not_retried :
  let r := generate_table_text_summaries flaky flaky ["Revenue grew."] [] w0 in
  text_summaries r = [text_sentinel "Revenue grew."]
  /\ final_world r = {| calls := 1; sleeps := [] |}
  /\ make_llm_call_with_retry_multimodal flaky "Revenue grew." "text" "1" 5 w0
     = ("summary", {| calls := 2; sleeps := [2] |}).
Proof. repeat split; reflexivity. Qed.

Definition chart_key : ImageProcessor.image_key := (1, []).

Definition chart : image_info :=
  {| info_base64_data := "aGk="; info_caption_text := "Figure 1";
     info_page_number := 1; info_image_path := None |}.

(** C8, as stated, fails: the model answers with an empty text and the slot
    is empty. *)
Lemma empty_summary_slot :
  text_summaries
    (generate_table_text_summaries (fun _ _ => Text "") (fun _ _ => Text "")
       ["Revenue grew."] [] w0)
  = [""].
Proof. reflexivity. Qed.

(** C8, amended. A batch of N texts, tables or image bundles gives exactly
    N results, in input order.  The slot of a text or of a table is the
    text the model answered to the one call made for that item, as it is,
    or the sentinel of the item when that call raised; every item gets its
    call, whatever happened to the items before it.  The slot of an image
    bundle is the processing sentinel when its payload cannot be decoded;
    otherwise the model is called for it through the retry helper, starting
    with the call that follows those of the items before it, and the slot
    is the text answered, or the "error" or "failed" sentinel of the item.
    The sentinels are never empty. *)
Theorem cardinality_preserved :
  (forall (model_text model_table : nat -> string -> response)
          (texts tables : list string) (w : world),
     let r := generate_table_text_summaries model_text model_table texts tables w in
     length (text_summaries r) = length texts
     /\ length (table_summaries r) = length tables
     /\ (forall i text, texts !! i = Some text ->
           text_summaries r !! i
           = Some match model_text (calls w + i)%nat text with
                  | Text summary => summary
                  | _ => text_sentinel text
                  end)
     /\ (forall i table, tables !! i = Some table ->
           table_summaries r !! i
           = Some match model_table (calls w + length texts + i)%nat table with
                  | Text summary => summary
                  | _ => table_sentinel table
                  end)
     /\ calls (final_world r) = (calls w + length texts + length tables)%nat
     /\ (forall item, text_sentinel item <> "" /\ table_sentinel item <> ""))
  /\ (forall (bytes : Type) (b64decode : string -> option bytes)
             (str_page : Z -> string) (str_key : ImageProcessor.image_key -> string)
             (model : nat -> prompt_parts bytes -> response)
             (items : list item) (w : world),
        let r :=
          image_to_text_summarizer bytes b64decode str_page str_key model items w in
        length r.1.1 = length items
        /\ (forall i key info, items !! i = Some (key, info) ->
              let first_call :=
                calls (summarize_images bytes b64decode str_page str_key
                         model (take i items) [] 0 w).2 in
              (calls w <= first_call)%nat
              /\ r.1.1 !! i
                   = Some match b64decode (info_base64_data info) with
                          | None => processing_sentinel str_key key
                          | Some decoded =>
                              let element_key :=
                                element_key str_page str_key key info in
                              match
                                retry_outcome model
                                  (make_prompt bytes str_page info decoded) 5
                                  first_call
                              with
                              | Answered summary => summary
                              | Refused => error_sentinel "image" element_key
                              | Exhausted => failed_sentinel "image" element_key
                              end
                          end)
        /\ (forall key element_key,
              processing_sentinel str_key key <> ""
              /\ error_sentinel "image" element_key <> ""
              /\ failed_sentinel "image" element_key <> "")).
Proof.
  split.
  - intros model_text model_table texts tables w r.
    destruct (generate_table_text_summaries_spec model_text model_table texts
                tables w) as (Ht & Hb & _ & _ & Hw).
    cbn zeta in Ht, Hb, Hw. subst r. rewrite Ht, Hb, Hw. cbn [calls].
    rewrite !length_zip_with, !length_answers, !Nat.min_id.
    split; [reflexivity|]. split; [reflexivity|].
    split; [by apply lookup_slots|]. split; [by apply lookup_slots|].
    split; [reflexivity|]. by intros item.
  - intros bytes b64decode str_page str_key model items w r.
    subst r. unfold image_to_text_summarizer.
    destruct (summarize_images_spec bytes b64decode str_page str_key model
                items [] 0 w) as [Hs _].
    cbn zeta in Hs. rewrite Hs, app_nil_l.
    rewrite length_zip_with, length_image_outcomes, Nat.min_id.
    split; [reflexivity|]. split; [|by intros key element_key].
    intros i key info Hi.
    destruct (lookup_image_outcomes bytes b64decode str_page str_key model
                items i (key, info) w Hi) as (Hle & Ho).
    split; [exact Hle|].
    unfold item in *. rewrite lookup_zip_with, Hi, Ho.
    cbn [mbind option_bind]. unfold image_outcome, image_slot. cbn [fst snd].
    by destruct (b64decode (info_base64_data info)) as [decoded|].
Qed.

End BatchClaims.

(** ** Batch summarization: the failure counter *)

Module CounterClaims.
Import Summarizer RetryFacts BatchFacts ImageBatchFacts BatchClaims.

Section Counted.

Variable bytes : Type.
Variable b64decode : string -> option bytes.
Variable str_page : Z -> string.
Variable str_key : ImageProcessor.image_key -> string.
Variable model : nat -> prompt_parts bytes -> response.

Lemma image_outcomes_answered items : forall w t,
  In (Some (Answered t))
     (image_outcomes bytes b64decode str_page str_key model items w) ->
  exists n p, model n p = Text t.
Proof.
  induction items as [|it rest IH]; intros w t; cbn [image_outcomes In];
    [done|].
  intros [Ho|Hin]; [|by eapply IH].
  unfold image_outcome in Ho.
  destruct (b64decode (info_base64_data it.2)) as [decoded|]; [|done].
  apply (inj Some) in Ho. apply retry_outcome_answered in Ho as [n Hn].
  by exists n, (make_prompt bytes str_page it.2 decoded).
Qed.

Lemma failed_counted o : failed o = true -> counted o = true.
Proof. by destruct o as [[t| |]|]. Qed.

Lemma failed_le_counted (l : list (option attempt)) :
  (length (List.filter failed l) <= length (List.filter counted l))%nat.
Proof.
  induction l as [|o l IH]; cbn; [lia|].
  destruct (failed o) eqn:Hf.
  - rewrite (failed_counted o Hf). cbn. lia.
  - destruct (counted o); cbn; lia.
Qed.

End Counted.

(** A model that words its answer like an error message. *)
Definition apologetic (_ : nat) (_ : prompt_parts unit) : response :=
  Text "Error summarizing image: the picture is blank.".

(** C9. The code at the failing input: a batch of one image bundle and a
    model whose answer starts with the words "Error summarizing image".
    The call succeeds at once, the slot holds the generated text and not a
    sentinel, and the counter is 1: line 105 counts the item for the words
    of its summary. *)
Lemma counted_without_failure :
  image_to_text_summarizer unit (fun _ => Some tt) (fun _ => "1") (fun _ => "k")
    apologetic [(chart_key, chart)] w0
  = (["Error summarizing image: the picture is blank."], 1%nat,
     {| calls := 1; sleeps := [] |})
  /\ image_outcomes unit (fun _ => Some tt) (fun _ => "1") (fun _ => "k")
       apologetic
       [(chart_key, chart)] w0
     = [Some (Answered "Error summarizing image: the picture is blank.")].
Proof. split; reflexivity. Qed.

(** X24. What the counters count.  In a text or table batch, the items whose
    call raised.  In an image batch, the items that failed (payload not
    decoded, call refused, retries exhausted) and the items whose generated
    summary contains "Error summarizing image" or "Failed to summarize
    image"; the counter is the number of failed items when no text
    generated by the model contains one of these phrases. *)
Theorem failure_counter :
  (forall (model_text model_table : nat -> string -> response)
          (texts tables : list string) (w : world),
     let r := generate_table_text_summaries model_text model_table texts tables w in
     let text_answers := answers model_text (calls w) texts in
     let table_answers := answers model_table (calls w + length texts) tables in
     text_summaries r = zip_with (slot text_sentinel) texts text_answers
     /\ text_exception_counter r = length (List.filter raised text_answers)
     /\ table_summaries r = zip_with (slot table_sentinel) tables table_answers
     /\ table_exception_counter r = length (List.filter raised table_answers))
  /\ (forall (bytes : Type) (b64decode : string -> option bytes)
             (str_page : Z -> string) (str_key : ImageProcessor.image_key -> string)
             (model : nat -> prompt_parts bytes -> response)
             (items : list item) (w : world),
        let r :=
          image_to_text_summarizer bytes b64decode str_page str_key model items w in
        let outcomes :=
          image_outcomes bytes b64decode str_page str_key model items w in
        r.1.1 = zip_with (image_slot str_page str_key) items outcomes
        /\ r.1.2 = length (List.filter counted outcomes)
        /\ (length (List.filter failed outcomes) <= r.1.2)%nat
        /\ ((forall n p t, model n p = Text t -> looks_failed t = false) ->
            r.1.2 = length (List.filter failed outcomes))).
Proof.
  split.
  - intros model_text model_table texts tables w r text_answers table_answers.
    destruct (generate_table_text_summaries_spec model_text model_table texts
                tables w) as (Ht & Hb & Hct & Hcb & _).
    by repeat split.
  - intros bytes b64decode str_page str_key model items w r outcomes.
    subst r. unfold image_to_text_summarizer.
    destruct (summarize_images_spec bytes b64decode str_page str_key model
                items [] 0 w) as [Hs Hc].
    cbn zeta in Hs, Hc. rewrite Hs, Hc, app_nil_l, Nat.add_0_l.
    fold outcomes.
    split; [reflexivity|]. split; [reflexivity|].
    split; [apply failed_le_counted|].
    intros Hplain. f_equal. apply List.filter_ext_in.
    intros [[t| |]|] Hin; try reflexivity. cbn.
    apply image_outcomes_answered in Hin as (n & p & Hn).
    by apply (Hplain n p t).
Qed.

Definition plain (_ : nat) (_ : prompt_parts unit) : response :=
  Text "A chart.".

Lemma failure_counter_witness :
  (image_to_text_summarizer unit (fun _ => Some tt) (fun _ => "1")
     (fun _ => "k") plain [(chart_key, chart)] w0).1.2
  = 0%nat.
Proof.
  destruct failure_counter as [_ H].
  destruct (H unit (fun _ => Some tt) (fun _ => "1") (fun _ => "k") plain
              [(chart_key, chart)] w0) as (_ & _ & _ & Hplain).
  rewrite Hplain; [reflexivity|].
  intros n p t [= <-]. reflexivity.
Defined.

End CounterClaims.

(** * Further properties of the code *)

(** ** Categorizer: counters, page limit, missing page numbers *)

Module CategorizerExtras.
Import Categorizer CategorizerFacts.

Lemma loop_app raw pages idxs1 idxs2 st :
  loop raw pages (idxs1 ++ idxs2) st
  = bind (loop raw pages idxs1 st) (loop raw pages idxs2).
Proof.
  revert st. induction idxs1 as [|i idxs1 IH]; intros st; cbn; [done|].
  destruct (step raw pages st i) as [st1|e]; cbn; [apply IH|done].
Qed.

(** Reading a list through its indices. *)
Lemma omap_indices {A B} (f : A -> option B) (l2 : list A) : forall l1,
  omap (fun i => (l1 ++ l2) !! i ≫= f) (seq (length l1) (length l2))
  = omap f l2.
Proof.
  induction l2 as [|a l2 IH]; intros l1; [done|].
  cbn [length seq omap list_omap].
  rewrite (list_lookup_middle l1 l2 a (length l1) eq_refl). cbn [mbind option_bind].
  specialize (IH (l1 ++ [a])). rewrite length_app, Nat.add_1_r in IH.
  rewrite <- app_assoc in IH. cbn [app] in IH. rewrite IH. reflexivity.
Qed.

Lemma omap_all_indices {A B} (f : A -> option B) (l : list A) :
  omap (fun i => l !! i ≫= f) (seq 0 (length l)) = omap f l.
Proof. apply (omap_indices f l []). Qed.

(** The text of a retained text-like element, the markup count of a
    retained table. *)
Definition retained_text (pages : Z) (el : element) : option string :=
  if is_text_category (category el) && negb (beyond_page_limit pages el)
  then Some (text el) else None.

Definition retained_table (pages : Z) (el : element) : bool :=
  String.eqb (category el) "Table" && negb (beyond_page_limit pages el).

Lemma claimed_text_retained raw pages i :
  claimed_text raw pages i = raw !! i ≫= retained_text pages.
Proof. reflexivity. Qed.

Lemma length_claimed_tables raw pages (l2 : list element) : forall l1,
  raw = l1 ++ l2 ->
  length (omap (claimed_table raw pages) (seq (length l1) (length l2)))
  = length (List.filter (retained_table pages) l2).
Proof.
  induction l2 as [|a l2 IH]; intros l1 Hraw; [done|].
  cbn [length seq omap list_omap List.filter].
  unfold claimed_table at 1. rewrite Hraw at 1.
  rewrite (list_lookup_middle l1 l2 a (length l1) eq_refl).
  cbn [mbind option_bind]. fold (retained_table pages a).
  specialize (IH (l1 ++ [a])). rewrite length_app, Nat.add_1_r in IH.
  rewrite <- app_assoc in IH. specialize (IH Hraw).
  destruct (retained_table pages a); cbn [length]; by rewrite IH.
Qed.

(** X1. Within the page limit (no limit at all when it is 0 or negative), the
    texts are the texts of the text-like elements in stream order, and
    there is one table string per Table element. *)
Theorem texts_in_stream_order (raw : list element) (pages : Z) :
  (forall el, el ∈ raw -> is_Some (page_number (meta el))) ->
  exists texts tables,
    categorize_elements raw pages = Return (texts, tables)
    /\ texts = omap (retained_text pages) raw
    /\ length tables = length (List.filter (retained_table pages) raw)
    /\ (pages <= 0 ->
        texts = text <$> List.filter (fun el => is_text_category (category el)) raw).
Proof.
  intros Hpage. unfold categorize_elements.
  destruct (loop_spec raw pages (seq 0 (length raw)) init Hpage)
    as (st & Hloop & Htab & Htxt).
  rewrite Hloop. cbn [bind]. eexists _, _. split; [reflexivity|].
  assert (texts st = omap (retained_text pages) raw) as Ht.
  { rewrite Htxt. cbn [texts init app]. apply omap_all_indices. }
  split; [exact Ht|]. split.
  - rewrite Htab. cbn [tables_html init app].
    apply (length_claimed_tables raw pages raw []). reflexivity.
  - intros Hno. rewrite Ht. clear -Hno. induction raw as [|el raw IH]; [done|].
    cbn [omap list_omap List.filter]. unfold retained_text at 1.
    assert (beyond_page_limit pages el = false) as ->.
    { unfold beyond_page_limit. destruct (Z.ltb_spec 0 pages); [lia|done]. }
    cbn [negb]. rewrite andb_true_r.
    destruct (is_text_category (category el)); cbn; by rewrite IH.
Qed.

Lemma texts_in_stream_order_witness :
  exists texts tables,
    categorize_elements [narrative "Sales"; table "<table/>"] 0
    = Return (texts, tables)
    /\ texts = ["Sales"] /\ length tables = 1%nat.
Proof.
  destruct (texts_in_stream_order [narrative "Sales"; table "<table/>"] 0)
    as (texts & tables & Hrun & Ht & Hn & _).
  - intros el Hel.
    repeat (apply elem_of_cons in Hel as [->|Hel]); try (eexists; reflexivity).
    by apply elem_of_nil in Hel.
  - exists texts, tables. split; [exact Hrun|]. split; [exact Ht|exact Hn].
Defined.

Lemma step_counters raw pages st i el st' :
  raw !! i = Some el -> step raw pages st i = Return st' ->
  let skip := if beyond_page_limit pages el then 1%nat else 0%nat in
  skipped_elements st' = (skipped_elements st + skip)%nat
  /\ (processed_elements st' + skip = S (processed_elements st))%nat
  /\ (length (texts st') + length (tables_html st') + processed_elements st
      <= length (texts st) + length (tables_html st) + processed_elements st')%nat.
Proof.
  intros Hel. unfold step. rewrite Hel.
  destruct (beyond_page_limit pages el).
  { intros [= <-]. cbn. lia. }
  destruct (is_text_category (category el)).
  { unfold format_page. destruct (page_number (meta el)); [|done].
    intros [= <-]. cbn. rewrite length_app. cbn. lia. }
  destruct (String.eqb (category el) "Table").
  { unfold format_page. destruct (page_number (meta el)); [|done].
    intros [= <-]. cbn. rewrite length_app. cbn. lia. }
  intros [= <-]. cbn. lia.
Qed.

Lemma loop_counters raw pages (l2 : list element) : forall l1 st st',
  raw = l1 ++ l2 ->
  loop raw pages (seq (length l1) (length l2)) st = Return st' ->
  skipped_elements st'
  = (skipped_elements st + length (List.filter (beyond_page_limit pages) l2))%nat
  /\ (processed_elements st' + skipped_elements st'
      = processed_elements st + skipped_elements st + length l2)%nat
  /\ (length (texts st') + length (tables_html st') + processed_elements st
      <= length (texts st) + length (tables_html st) + processed_elements st')%nat.
Proof.
  induction l2 as [|a l2 IH]; intros l1 st st' Hraw.
  - intros [= <-]. cbn. lia.
  - cbn [length seq loop List.filter].
    destruct (step raw pages st (length l1)) as [st1|e] eqn:Hstep; [|done].
    cbn [bind]. intros Hloop.
    assert (raw !! length l1 = Some a) as Ha
      by (rewrite Hraw; by apply list_lookup_middle).
    destruct (step_counters raw pages st (length l1) a st1 Ha Hstep)
      as (Hs & Hp & Hl).
    specialize (IH (l1 ++ [a]) st1 st'). rewrite length_app, Nat.add_1_r in IH.
    rewrite <- app_assoc in IH. destruct (IH Hraw Hloop) as (Hs' & Hp' & Hl').
    cbn zeta in *. destruct (beyond_page_limit pages a); cbn [length]; lia.
Qed.

(** X2. The counters reported at the end of the loop: every element is either
    processed or skipped, the skipped ones are those beyond the page limit,
    and no more strings are produced than elements are processed. *)
Theorem counters_partition (raw : list element) (pages : Z) (st : state) :
  loop raw pages (seq 0 (length raw)) init = Return st ->
  (processed_elements st + skipped_elements st = length raw)%nat
  /\ skipped_elements st = length (List.filter (beyond_page_limit pages) raw)
  /\ (length (texts st) + length (tables_html st) <= processed_elements st)%nat.
Proof.
  intros Hloop.
  destruct (loop_counters raw pages raw [] init st eq_refl Hloop)
    as (Hs & Hp & Hl).
  cbn in *. lia.
Qed.

Lemma counters_partition_witness :
  exists st,
    loop [narrative "Sales"; table "<table/>"] 1 (seq 0 2) init = Return st
    /\ (processed_elements st + skipped_elements st = 2)%nat.
Proof.
  eexists. split; [reflexivity|].
  apply (counters_partition [narrative "Sales"; table "<table/>"] 1).
  reflexivity.
Defined.

Lemma loop_returns raw pages idxs : forall st,
  (forall i el, i ∈ idxs -> raw !! i = Some el ->
     is_Some (page_number (meta el))) ->
  exists st', loop raw pages idxs st = Return st'.
Proof.
  induction idxs as [|i idxs IH]; intros st Hpage; cbn; [by eexists|].
  destruct (step_spec raw pages st i) as (st1 & Hstep & _).
  { intros el. apply Hpage. left. }
  rewrite Hstep. cbn. apply IH. intros j el Hj. apply Hpage. by right.
Qed.

(** X3. A text-like or Table element that is not skipped and has no
    [page_number] makes the whole categorization raise [AttributeError]
    (the debug message of lines 40, 54 and 57 reads the attribute): nothing
    is returned for the elements before it either. *)
Theorem missing_page_number_raises (raw pre post : list element)
    (el : element) (pages : Z) :
  raw = pre ++ el :: post ->
  (forall e, e ∈ pre -> is_Some (page_number (meta e))) ->
  page_number (meta el) = None ->
  is_text_category (category el) = true \/ category el = "Table" ->
  categorize_elements raw pages = Raise AttributeError.
Proof.
  intros Hraw Hpre Hnone Hcat. unfold categorize_elements.
  assert (seq 0 (length raw)
          = seq 0 (length pre) ++ length pre :: seq (S (length pre)) (length post))
    as ->.
  { rewrite Hraw, length_app. cbn [length].
    rewrite seq_app. cbn [seq]. reflexivity. }
  rewrite loop_app.
  destruct (loop_returns raw pages (seq 0 (length pre)) init) as [st1 ->].
  { intros i e Hi%elem_of_seq He. apply Hpre.
    rewrite Hraw, lookup_app_l in He by lia.
    by eapply list_elem_of_lookup_2. }
  cbn [bind loop]. unfold step.
  rewrite Hraw, (list_lookup_middle pre post el (length pre) eq_refl).
  unfold beyond_page_limit, format_page. rewrite Hnone, andb_false_r.
  destruct Hcat as [-> | ->]; reflexivity.
Qed.

Definition unpaged (t : string) : element :=
  {| category := "NarrativeText"; text := t;
     meta := {| page_number := None; coordinates := None;
                image_path := None; text_as_html := "" |} |}.

Lemma missing_page_number_raises_witness :
  categorize_elements [narrative "Sales"; unpaged "Costs"; table "<table/>"] 100
  = Raise AttributeError.
Proof.
  apply (missing_page_number_raises _ [narrative "Sales"] [table "<table/>"]
           (unpaged "Costs") 100 eq_refl).
  - intros e He. apply list_elem_of_singleton in He as ->. by eexists.
  - reflexivity.
  - by left.
Defined.

End CategorizerExtras.

(** ** Encoding stage: what [convert_images_to_base64] stores *)

Module ConvertExtras.
Import ImageProcessor.

Lemma map_size_le_keys {V} (d : gmap image_key V) (l : list image_key) :
  (forall k, is_Some (d !! k) -> k ∈ l) -> (size d <= length l)%nat.
Proof.
  revert d. induction l as [|x l IH]; intros d Hd.
  - assert (d = ∅) as ->; [|by rewrite map_size_empty].
    apply map_empty. intros k. destruct (d !! k) eqn:Hk; [|done].
    exfalso. eapply elem_of_nil, Hd. by eexists.
  - specialize (IH (delete x d)).
    assert (size (delete x d) <= length l)%nat as Hle.
    { apply IH. intros k [b [Hne Hb]%lookup_delete_Some].
      assert (k ∈ x :: l) as Hin by (apply Hd; by exists b).
      apply elem_of_cons in Hin as [->|Hin]; done. }
    rewrite map_size_delete in Hle. cbn [length].
    destruct (d !! x); cbn in Hle; lia.
Qed.

Section Encoded.

Variable path_exists : string -> bool.
Variable read_base64 : string -> option string.

(** The entry appended to [raw_image_list] for an element: it is an Image,
    its path is set, exists and can be read, and it has a page number and
    coordinates. *)
Definition encoded (el : element) : option raw_image :=
  if String.eqb (category el) "Image" then
    path ← image_path (meta el);
    if negb (String.eqb path "") && path_exists path then
      b64 ← read_base64 path;
      p ← page_number (meta el);
      c ← coordinates (meta el);
      Some {| raw_image_path := path; raw_base64_data := b64;
              raw_page_number := p; raw_coordinates := c |}
    else None
  else None.

(** What the element writes under the key [k]. *)
Definition payload_for (k : image_key) (el : element) : option string :=
  e ← encoded el;
  k' ← encoding_key el;
  if decide (k' = k) then Some (raw_base64_data e) else None.

Definition paged_images (els : list element) : Prop :=
  forall el, el ∈ els -> String.eqb (category el) "Image" = true ->
    is_Some (page_number (meta el)).

Lemma convert_step_spec acc el :
  (String.eqb (category el) "Image" = true -> is_Some (page_number (meta el))) ->
  exists d,
    convert_step path_exists read_base64 acc el
    = Return (acc.1 ++ option_list (encoded el), d)
    /\ forall k, d !! k = match payload_for k el with
                          | Some b => Some b
                          | None => acc.2 !! k
                          end.
Proof.
  intros Hpage. destruct acc as [l d]. unfold convert_step, payload_for, encoded.
  destruct (String.eqb (category el) "Image") eqn:Himg; cbn [fst snd].
  2:{ exists d. cbn. by rewrite app_nil_r. }
  destruct (Hpage eq_refl) as [p Hp].
  assert (format_page el = Return tt) as Hfmt by (unfold format_page; by rewrite Hp).
  destruct (image_path (meta el)) as [path|]; cbn [mbind option_bind];
    [|rewrite Hfmt; exists d; cbn; by rewrite app_nil_r].
  destruct (negb (String.eqb path "") && path_exists path);
    [|rewrite Hfmt; exists d; cbn; by rewrite app_nil_r].
  destruct (read_base64 path) as [b64|]; cbn [mbind option_bind];
    [|rewrite Hfmt; exists d; cbn; by rewrite app_nil_r].
  rewrite Hp. cbn [mbind option_bind].
  destruct (coordinates (meta el)) as [c|] eqn:Hc; cbn [mbind option_bind];
    [|rewrite Hfmt; exists d; cbn; by rewrite app_nil_r].
  destruct (encoding_key el) as [k'|]; cbn [mbind option_bind option_list].
  - eexists. split; [reflexivity|]. intros k. cbn [raw_base64_data].
    case_decide as Hk.
    + subst k'. by rewrite lookup_insert_eq.
    + by rewrite lookup_insert_ne.
  - exists d. done.
Qed.

Lemma convert_loop_spec els : forall acc,
  paged_images els ->
  exists d,
    convert_loop path_exists read_base64 els acc
    = Return (acc.1 ++ omap encoded els, d)
    /\ forall k, d !! k = match last (omap (payload_for k) els) with
                          | Some b => Some b
                          | None => acc.2 !! k
                          end.
Proof.
  induction els as [|el els IH]; intros acc Hpage.
  - exists acc.2. cbn. rewrite app_nil_r. by destruct acc.
  - cbn [convert_loop].
    destruct (convert_step_spec acc el) as (d1 & Hstep & Hd1).
    { apply Hpage. left. }
    rewrite Hstep. cbn [bind].
    destruct (IH (acc.1 ++ option_list (encoded el), d1)) as (d & Hloop & Hd).
    { intros e He. apply Hpage. by right. }
    exists d. rewrite Hloop. cbn [fst snd]. split.
    + rewrite <- app_assoc. cbn [omap list_omap].
      by destruct (encoded el).
    + intros k. rewrite Hd, Hd1. cbn [snd omap list_omap].
      destruct (payload_for k el) as [b|]; [|done].
      rewrite last_cons. by destruct (last (omap (payload_for k) els)).
Qed.

Lemma convert_step_returns acc el r :
  convert_step path_exists read_base64 acc el = Return r ->
  String.eqb (category el) "Image" = true -> is_Some (page_number (meta el)).
Proof.
  destruct acc as [l d]. unfold convert_step. intros Hr Himg. rewrite Himg in Hr.
  destruct (page_number (meta el)) as [p|] eqn:Hp; [by eexists|].
  exfalso. unfold format_page in Hr. rewrite Hp in Hr.
  destruct (image_path (meta el)) as [path|]; [|done].
  destruct (negb (String.eqb path "") && path_exists path); [|done].
  destruct (read_base64 path); done.
Qed.

Lemma convert_loop_returns els : forall acc r,
  convert_loop path_exists read_base64 els acc = Return r -> paged_images els.
Proof.
  induction els as [|el els IH]; intros acc r Hr e He; [by apply elem_of_nil in He|].
  cbn [convert_loop] in Hr.
  destruct (convert_step path_exists read_base64 acc el) as [acc'|x] eqn:Hstep;
    [|done].
  cbn [bind] in Hr. apply elem_of_cons in He as [->|He].
  - by eapply convert_step_returns.
  - by eapply IH.
Qed.

End Encoded.

(** X4. [convert_images_to_base64] returns exactly when every Image element has
    a page number; otherwise it raises (the messages of lines 45 and 47 and
    the entry of line 35 read the attribute). *)
Theorem returns_iff_images_paged (path_exists : string -> bool)
    (read_base64 : string -> option string) (raw : list element) :
  (exists r, convert_images_to_base64 path_exists read_base64 raw = Return r)
  <-> paged_images raw.
Proof.
  unfold convert_images_to_base64. split.
  - intros [r Hr]. by eapply convert_loop_returns.
  - intros Hpage.
    destruct (convert_loop_spec path_exists read_base64 raw ([], ∅) Hpage)
      as (d & Hloop & _).
    by eexists.
Qed.

(** X5. When it returns, [raw_image_list] holds, in stream order, one entry per
    Image element whose file exists and can be read and which has
    coordinates; the payload stored under a key is that of the last such
    element with this key, and a key no such element has is absent; the
    dictionary is no larger than the list. *)
Theorem encoded_entries (path_exists : string -> bool)
    (read_base64 : string -> option string) (raw : list element) :
  paged_images raw ->
  exists d,
    convert_images_to_base64 path_exists read_base64 raw
    = Return (omap (encoded path_exists read_base64) raw, d)
    /\ (forall k,
          d !! k = last (omap (payload_for path_exists read_base64 k) raw))
    /\ (size d <= length (omap (encoded path_exists read_base64) raw))%nat.
Proof.
  intros Hpage. unfold convert_images_to_base64.
  destruct (convert_loop_spec path_exists read_base64 raw ([], ∅) Hpage)
    as (d & Hloop & Hd).
  exists d. rewrite Hloop. cbn [fst snd app]. split; [reflexivity|].
  assert (forall k,
            d !! k = last (omap (payload_for path_exists read_base64 k) raw))
    as Hlook.
  { intros k. rewrite Hd. cbn [snd]. rewrite lookup_empty. by destruct (last _). }
  split; [exact Hlook|].
  etrans; [|apply (BundleFacts.length_omap_le
                     (fun e : raw_image =>
                        match raw_coordinates e with
                        | WithPoints (PyList ps) | WithPoints (PyTuple ps) =>
                            Some (raw_page_number e, tuple_of_tuples ps)
                        | _ => None
                        end))].
  apply map_size_le_keys. intros k [b Hb]. rewrite Hlook in Hb.
  apply last_Some_elem_of in Hb.
  apply list_elem_of_omap in Hb as (el & Hel & Hpay).
  apply list_elem_of_omap.
  unfold payload_for in Hpay.
  destruct (encoded path_exists read_base64 el) as [e|] eqn:He; [|done].
  cbn [mbind option_bind] in Hpay.
  destruct (encoding_key el) as [k'|] eqn:Hk; [|done].
  cbn [mbind option_bind] in Hpay. case_decide as Hkk; [|done]. subst k'.
  exists e. split.
  - apply list_elem_of_omap. by exists el.
  - unfold encoded in He. unfold encoding_key in Hk.
    destruct (String.eqb (category el) "Image"); [|done].
    destruct (image_path (meta el)) as [path|]; [|done].
    cbn [mbind option_bind] in He.
    destruct (negb (String.eqb path "") && path_exists path); [|done].
    destruct (read_base64 path) as [b64|]; [|done].
    destruct (page_number (meta el)) as [p|]; [|done].
    destruct (coordinates (meta el)) as [c|]; [|done].
    cbn [mbind option_bind] in He, Hk. injection He as <-. cbn.
    by destruct c as [[|ps|ps]|v].
Qed.

Definition figure : element :=
  KeyFacts.image_element 3 (WithPoints (KeyFacts.as_lists KeyFacts.unit_square))
    (Some "fig.jpg").

Lemma figure_paged : paged_images [figure].
Proof.
  intros el Hel _. apply list_elem_of_singleton in Hel as ->. by eexists.
Qed.

Lemma returns_iff_images_paged_witness :
  exists r,
    convert_images_to_base64 (fun _ => true) (fun _ => Some "aGk=") [figure]
    = Return r.
Proof.
  apply (proj2 (returns_iff_images_paged (fun _ => true) (fun _ => Some "aGk=")
                  [figure])).
  exact figure_paged.
Defined.

Lemma encoded_entries_witness :
  exists d,
    convert_images_to_base64 (fun _ => true) (fun _ => Some "aGk=") [figure]
    = Return ([{| raw_image_path := "fig.jpg"; raw_base64_data := "aGk=";
                  raw_page_number := 3;
                  raw_coordinates :=
                    WithPoints (KeyFacts.as_lists KeyFacts.unit_square) |}], d)
    /\ (size d <= 1)%nat.
Proof.
  destruct (encoded_entries (fun _ => true) (fun _ => Some "aGk=") [figure]
              figure_paged) as (d & Hrun & _ & Hsize).
  exists d. split; [exact Hrun|exact Hsize].
Defined.

End ConvertExtras.

(** ** Spatial matcher: malformed points, the log, the order of points *)

Module MatcherExtras.
Import ImageProcessor FloatFacts MatcherFacts NearestFacts.

(** A centre needs two components in every point. *)
Lemma center_components ps c q :
  center ps = Some c -> q ∈ ps -> (2 <= length (components q))%nat.
Proof.
  unfold center. intros Hc Hq.
  destruct (mapM (fun p => value <$> components p !! 0%nat) ps) as [xs|];
    [|done].
  destruct (mapM (fun p => value <$> components p !! 1%nat) ps) as [ys|] eqn:Hys;
    [|done].
  apply mapM_Some_1 in Hys.
  apply list_elem_of_lookup in Hq as [i Hi].
  destruct (Forall2_lookup_l _ _ _ _ _ Hys Hi) as (y & _ & Hy).
  destruct (components q !! 1%nat) as [a|] eqn:Ha; [|done].
  apply lookup_lt_Some in Ha. lia.
Qed.

Definition short_box : list point :=
  [PtTuple [coord 8; coord 8]; PtTuple [coord 10]].

Section Logged.

Variable pow : float -> float -> float * errno.

(** X6. A caption whose list of points holds a point with fewer than two
    components: the exception raised while its centre is computed is
    caught, one error is logged and nothing is returned, whatever the
    candidates. *)
Theorem short_caption_point (caption : element) (images : list image_dict)
    (p : Z) (c0 : coords_attr) (ps : list point) (q : point) :
  page_number (meta caption) = Some p ->
  coordinates (meta caption) = Some c0 ->
  points_or_self c0 = PyList ps ->
  q ∈ ps -> (length (components q) < 2)%nat ->
  find_closest_image_logged pow caption images = (None, [ErrCaptionCenter]).
Proof.
  intros Hp Hc0 Hps Hq Hshort. unfold find_closest_image_logged.
  rewrite Hc0, Hp, Hps.
  destruct ps as [|q0 ps]; [by apply elem_of_nil in Hq|].
  destruct (center (q0 :: ps)) as [c|] eqn:Hc; [|reflexivity].
  pose proof (center_components _ _ _ Hc Hq). lia.
Qed.

(** The candidate counts as found on the caption's page (line 96). *)
Definition on_page (p : Z) (img : image_dict) : bool :=
  bool_decide (img_page_number img = p) && truthy (img_coordinates img).

(** The candidate is on the page with a non-empty list of points, and an
    exception is raised on the way to its distance from [c]: by [p[0]] or
    [p[1]] while its centre is computed, or by [**] while the distance
    is. *)
Definition raising (p : Z) (c : float * float) (img : image_dict) : bool :=
  bool_decide (img_page_number img = p)
  && match img_coordinates img with
     | PyList ((_ :: _) as ps) =>
         match center ps with
         | Some ic =>
             match distance pow c ic with
             | Return _ => false
             | Raise _ => true
             end
         | None => true
         end
     | _ => false
     end.

(** The errors logged for the candidates, the first of which has index
    [idx]. *)
Fixpoint processing_errors (p : Z) (c : float * float) (idx : nat)
    (images : list image_dict) : list log_entry :=
  match images with
  | [] => []
  | img :: rest =>
      (if raising p c img then [ErrProcessingImage idx] else [])
      ++ processing_errors p c (S idx) rest
  end.

Lemma search_step_log p c st idx img :
  log (search_step pow p c st idx img)
  = log st ++ (if raising p c img then [ErrProcessingImage idx] else [])
  /\ found_on_page (search_step pow p c st idx img)
     = (found_on_page st + if on_page p img then 1 else 0)%nat.
Proof.
  unfold search_step, raising, on_page.
  case_bool_decide as Hp; cbn [andb];
    [|by rewrite app_nil_r, Nat.add_0_r].
  destruct (img_coordinates img) as [|[|q ps]|[|q ps]];
    try (cbn; by rewrite app_nil_r, ?Nat.add_0_r, ?Nat.add_1_r).
  rewrite truthy_cons_list.
  destruct (center (q :: ps)) as [ic|] eqn:Hc.
  - destruct (distance pow c ic) as [d|e].
    + destruct (fltb _ _); cbn; by rewrite app_nil_r, Nat.add_1_r.
    + cbn. by rewrite Nat.add_1_r.
  - cbn. by rewrite Nat.add_1_r.
Qed.

Lemma search_loop_log p c images : forall idx st,
  log (search_loop pow p c idx images st)
  = log st ++ processing_errors p c idx images
  /\ found_on_page (search_loop pow p c idx images st)
     = (found_on_page st + length (List.filter (on_page p) images))%nat.
Proof.
  induction images as [|img images IH]; intros idx st; cbn.
  - by rewrite app_nil_r, Nat.add_0_r.
  - destruct (IH (S idx) (search_step pow p c st idx img)) as [-> ->].
    destruct (search_step_log p c st idx img) as [-> ->].
    rewrite <- app_assoc. split; [reflexivity|].
    destruct (on_page p img); cbn [length]; lia.
Qed.

(** X7. What a search with a well-formed caption logs: one error per
    same-page candidate with a non-empty list of points for which the
    centre or the distance raises, with its index, in input order; then a
    warning when no same-page candidate has coordinates; then a warning
    exactly when nothing is returned. *)
Theorem search_log (caption : element) (images : list image_dict)
    (p : Z) (c0 : coords_attr) (cps : list point) (c : float * float) :
  page_number (meta caption) = Some p ->
  coordinates (meta caption) = Some c0 ->
  points_or_self c0 = PyList cps ->
  center cps = Some c ->
  (find_closest_image_logged pow caption images).2
  = processing_errors p c 0 images
    ++ (if existsb (on_page p) images then [] else [WarnNoneOnPage])
    ++ match find_closest_image pow caption images with
       | Some _ => []
       | None => [WarnNoSuitableImage]
       end.
Proof.
  intros Hp Hc0 Hps Hc. unfold find_closest_image, find_closest_image_logged.
  rewrite Hc0, Hp, Hps. destruct cps as [|q cps]; [done|]. rewrite Hc.
  cbn [fst snd].
  destruct (search_loop_log p c images 0
              {| min_distance := inf; closest_image := None;
                 found_on_page := 0; log := [] |}) as [-> ->].
  cbn [log found_on_page app Nat.add].
  assert (bool_decide (length (List.filter (on_page p) images) = 0%nat)
          = negb (existsb (on_page p) images)) as ->; [|by destruct (existsb _ _)].
  clear. induction images as [|img images IH]; [done|].
  cbn [List.filter existsb]. destruct (on_page p img); [done|exact IH].
Qed.

Definition has_center (p : Z) (img : image_dict) : bool :=
  match candidate_center p img with
  | Some _ => true
  | None => false
  end.

Lemma search_loop_centres p c images : forall i1 i2 st1 st2,
  min_distance st1 = min_distance st2 ->
  closest_image st1 = closest_image st2 ->
  closest_image (search_loop pow p c i1 images st1)
  = closest_image
      (search_loop pow p c i2 (List.filter (has_center p) images) st2).
Proof.
  induction images as [|img images IH]; intros i1 i2 st1 st2 Hm Hc; cbn.
  - exact Hc.
  - unfold has_center at 1.
    pose proof (search_step_candidate pow p c st1 i1 img) as Hs.
    cbn zeta in Hs. unfold candidate_distance in Hs.
    destruct (candidate_center p img) as [ic|] eqn:Hic; cbn.
    + destruct (search_step_core pow p c st1 st2 i1 i2 img Hm Hc) as [Hm' Hc'].
      by apply IH.
    + destruct Hs as [Hm' Hc']. apply IH; congruence.
Qed.

(** X8. A candidate from which no centre can be computed (another page, empty
    or non-list coordinates, a point with fewer than two components) never
    changes the result: the search goes on and returns what it returns for
    the other candidates alone. *)
Theorem candidates_without_centre_ignored (caption : element)
    (images : list image_dict) (p : Z) :
  page_number (meta caption) = Some p ->
  find_closest_image pow caption images
  = find_closest_image pow caption (List.filter (has_center p) images).
Proof.
  intros Hp. unfold find_closest_image, find_closest_image_logged. rewrite Hp.
  destruct (coordinates (meta caption)) as [c0|]; [|done].
  destruct (points_or_self c0) as [|[|q ps]|]; try done.
  destruct (center (q :: ps)) as [c|]; [|done].
  cbn [fst]. by apply search_loop_centres.
Qed.

End Logged.

Lemma short_caption_point_witness :
  find_closest_image_logged rounded_pow (caption_at 1 (PyList short_box))
    [image_at 1 (PyList (box 9 9 11 11))]
  = (None, [ErrCaptionCenter]).
Proof.
  apply (short_caption_point rounded_pow (caption_at 1 (PyList short_box))
           [image_at 1 (PyList (box 9 9 11 11))] 1
           (WithPoints (PyList short_box)) short_box
           (PtTuple [coord 10]) eq_refl eq_refl eq_refl).
  - right; left.
  - cbn. lia.
Defined.

(** A candidate with a point of one component, a candidate so far that the
    square of its offset is out of the range of floats, and nothing else on
    the page: two errors, then the warning that nothing was found. *)
Lemma search_log_witness :
  (find_closest_image_logged rounded_pow (caption_at 1 (PyList (box 8 8 10 10)))
     [image_at 1 (PyList [PtTuple [coord 9]]);
      image_at 1 (PyList (box 1e200 0 1e200 0))]).2
  = [ErrProcessingImage 0; ErrProcessingImage 1; WarnNoSuitableImage].
Proof.
  rewrite (search_log rounded_pow (caption_at 1 (PyList (box 8 8 10 10)))
             [image_at 1 (PyList [PtTuple [coord 9]]);
              image_at 1 (PyList (box 1e200 0 1e200 0))]
             1 (WithPoints (PyList (box 8 8 10 10)))
             (box 8 8 10 10) (lit 9, lit 9) eq_refl eq_refl eq_refl
             (proj1 nearest_of_three)).
  vm_compute. reflexivity.
Defined.

Lemma candidates_without_centre_ignored_witness :
  find_closest_image rounded_pow (caption_at 1 (PyList (box 8 8 10 10)))
    [image_at 1 (PyList [PtTuple [coord 9]]);
     image_at 1 (PyList (box 99 99 101 101))]
  = Some (image_at 1 (PyList (box 99 99 101 101))).
Proof.
  rewrite (candidates_without_centre_ignored rounded_pow
             (caption_at 1 (PyList (box 8 8 10 10)))
             [image_at 1 (PyList [PtTuple [coord 9]]);
              image_at 1 (PyList (box 99 99 101 101))] 1 eq_refl).
  vm_compute. reflexivity.
Defined.

Lemma mapM_perm {A B} (f : A -> option B) (l l' : list A) :
  l ≡ₚ l' ->
  forall k, mapM f l = Some k -> exists k', mapM f l' = Some k' /\ k ≡ₚ k'.
Proof.
  induction 1 as [|x l l' Hperm IH|x y l|l1 l2 l3 H12 IH12 H23 IH23]; intros k Hk.
  - exists k. done.
  - cbn in Hk. destruct (f x) as [b|] eqn:Hx; [|done]. cbn in Hk.
    destruct (mapM f l) as [k0|] eqn:Hl; [|done]. cbn in Hk.
    injection Hk as <-. destruct (IH k0 eq_refl) as (k0' & Hk0' & Hp0).
    exists (b :: k0'). cbn. rewrite Hx. cbn. rewrite Hk0'. cbn.
    split; [reflexivity|by constructor].
  - cbn in Hk. destruct (f y) as [b|] eqn:Hy; [|done]. cbn in Hk.
    destruct (f x) as [a|] eqn:Hx; [|done]. cbn in Hk.
    destruct (mapM f l) as [k0|] eqn:Hl; [|done]. cbn in Hk.
    injection Hk as <-. exists (a :: b :: k0). cbn. rewrite Hx. cbn.
    rewrite Hy. cbn. rewrite Hl. cbn. split; [reflexivity|by constructor].
  - destruct (IH12 k Hk) as (k2 & Hk2 & Hp2).
    destruct (IH23 k2 Hk2) as (k3 & Hk3 & Hp3).
    exists k3. split; [exact Hk3|by etrans].
Qed.

(** The floats read from a box are the values of its coordinates. *)
Definition of_coordinates (xs : list float) : Prop :=
  forall x, x ∈ xs -> exists a, x = value a.

Lemma mapM_of_coordinates (n : nat) ps xs :
  mapM (fun p => value <$> components p !! n) ps = Some xs ->
  of_coordinates xs.
Proof.
  intros H%mapM_Some_1 x [i Hi]%list_elem_of_lookup.
  destruct (Forall2_lookup_r _ _ _ _ _ H Hi) as (q & _ & Hq).
  destruct (components q !! n) as [a|]; [|done]. injection Hq as <-.
  by exists a.
Qed.

Lemma coordinates_equal x y :
  (exists a, x = value a) -> (exists b, y = value b) ->
  fltb x y = false -> fltb y x = false -> x = y.
Proof.
  intros [a ->] [b ->] Hxy Hyx. f_equal. by apply value_total.
Qed.

Lemma py_min_perm xs xs' m :
  of_coordinates xs -> xs ≡ₚ xs' -> py_min xs = Some m -> py_min xs' = Some m.
Proof.
  intros Hco Hperm Hm. destruct (py_min xs') as [m'|] eqn:Hm'.
  - apply py_min_least in Hm as [Hin Hle].
    apply py_min_least in Hm' as [Hin' Hle'].
    f_equal. apply coordinates_equal.
    + apply Hco. by rewrite Hperm.
    + by apply Hco.
    + apply Hle. by rewrite Hperm.
    + apply Hle'. by rewrite <- Hperm.
  - destruct xs' as [|x xs']; [|done].
    apply Permutation_nil_r in Hperm. by subst xs.
Qed.

Lemma py_max_perm xs xs' m :
  of_coordinates xs -> xs ≡ₚ xs' -> py_max xs = Some m -> py_max xs' = Some m.
Proof.
  intros Hco Hperm Hm. destruct (py_max xs') as [m'|] eqn:Hm'.
  - apply py_max_greatest in Hm as [Hin Hle].
    apply py_max_greatest in Hm' as [Hin' Hle'].
    f_equal. apply coordinates_equal.
    + apply Hco. by rewrite Hperm.
    + by apply Hco.
    + apply Hle'. by rewrite <- Hperm.
    + apply Hle. by rewrite Hperm.
  - destruct xs' as [|x xs']; [|done].
    apply Permutation_nil_r in Hperm. by subst xs.
Qed.

Lemma center_perm_Some ps ps' c :
  ps ≡ₚ ps' -> center ps = Some c -> center ps' = Some c.
Proof.
  unfold center. intros Hperm Hc.
  destruct (mapM (fun p => value <$> components p !! 0%nat) ps) as [xs|] eqn:Hxs;
    [|done].
  destruct (mapM (fun p => value <$> components p !! 1%nat) ps) as [ys|] eqn:Hys;
    [|done].
  pose proof (mapM_of_coordinates _ _ _ Hxs) as Hcx.
  pose proof (mapM_of_coordinates _ _ _ Hys) as Hcy.
  destruct (mapM_perm _ _ _ Hperm xs Hxs) as (xs' & -> & Hpx).
  destruct (mapM_perm _ _ _ Hperm ys Hys) as (ys' & -> & Hpy).
  cbn in *.
  destruct (py_min xs) as [lx|] eqn:Hlx; [|done].
  destruct (py_max xs) as [hx|] eqn:Hhx; [|done].
  destruct (py_min ys) as [ly|] eqn:Hly; [|done].
  destruct (py_max ys) as [hy|] eqn:Hhy; [|done].
  rewrite (py_min_perm _ _ _ Hcx Hpx Hlx), (py_max_perm _ _ _ Hcx Hpx Hhx),
    (py_min_perm _ _ _ Hcy Hpy Hly), (py_max_perm _ _ _ Hcy Hpy Hhy).
  exact Hc.
Qed.

(** X9. The centre of a box does not depend on the order in which its points
    are listed (the key of the box does). *)
Theorem center_permutation (ps ps' : list point) :
  ps ≡ₚ ps' -> center ps = center ps'.
Proof.
  intros Hperm. destruct (center ps) as [c|] eqn:Hc.
  - symmetry. by eapply center_perm_Some.
  - destruct (center ps') as [c'|] eqn:Hc'; [|done].
    symmetry in Hperm. by rewrite (center_perm_Some _ _ _ Hperm Hc') in Hc.
Qed.

Lemma center_permutation_witness :
  center (box 8 8 10 10) = center (rev (box 8 8 10 10))
  /\ tuple_of_tuples (box 8 8 10 10) <> tuple_of_tuples (rev (box 8 8 10 10)).
Proof.
  split.
  - apply center_permutation. apply Permutation_rev.
  - intros H. apply (f_equal (fun l => l !! 0%nat ≫= (.!! 1%nat))) in H.
    vm_compute in H. discriminate.
Defined.

End MatcherExtras.

(** ** Bundles: which caption stays, unhashable keys, empty inputs *)

Module BundleExtras.
Import ImageProcessor MatcherFacts KeyFacts BundleFacts.

Lemma for_each_app {A S} (body : S -> A -> result S) (l1 l2 : list A) (st : S) :
  for_each body (l1 ++ l2) st = bind (for_each body l1 st) (for_each body l2).
Proof.
  revert st. induction l1 as [|a l1 IH]; intros st; cbn; [done|].
  destruct (body st a) as [st1|e]; cbn; [apply IH|done].
Qed.

(** The bundle a caption writes under the key [k], if it writes there: its
    closest image has the key [k] and a payload is stored for [k]. *)
Definition written_by (pow : float -> float -> float * errno)
    (images : list element) (dict : gmap image_key string)
    (k : image_key) (caption : element) : option bundle :=
  r ← find_closest_image pow caption (images_for_closest_search images);
  match coords_for_key (img_coordinates r) with
  | KeyOk kk =>
      if decide ((img_page_number r, kk) = k) then
        b64 ← dict !! k;
        Some {| base64_data := b64; caption_text := text caption;
                bundle_page_number := img_page_number r |}
      else None
  | _ => None
  end.

Lemma caption_step_lookup pow images dict d caption :
  exists d',
    caption_step pow images dict d caption = Return d'
    /\ forall k, d' !! k = match written_by pow images dict k caption with
                           | Some b => Some b
                           | None => d !! k
                           end.
Proof.
  unfold caption_step, written_by, image_key.
  destruct (find_closest_image pow caption _) as [r|] eqn:Hr; cbn [mbind option_bind];
    [|by exists d].
  destruct (closest_image_key pow _ _ _ Hr) as (kk & -> & _).
  unfold image_key in *.
  destruct (dict !! (img_page_number r, kk)) as [b64|] eqn:Hb.
  - eexists. split; [reflexivity|]. intros k. case_decide as Hk.
    + subst k. rewrite Hb. cbn [mbind option_bind]. by rewrite lookup_insert_eq.
    + by rewrite lookup_insert_ne.
  - exists d. split; [reflexivity|]. intros k. case_decide as Hk; [|done].
    subst k. by rewrite Hb.
Qed.

Lemma caption_loop_lookup pow images dict cs : forall d,
  exists d',
    for_each (caption_step pow images dict) cs d = Return d'
    /\ forall k, d' !! k = match last (omap (written_by pow images dict k) cs) with
                           | Some b => Some b
                           | None => d !! k
                           end.
Proof.
  induction cs as [|caption cs IH]; intros d; cbn [for_each].
  - by exists d.
  - destruct (caption_step_lookup pow images dict d caption) as (d1 & -> & Hd1).
    cbn [bind]. destruct (IH d1) as (d' & -> & Hd').
    exists d'. split; [reflexivity|]. intros k. rewrite Hd', Hd1.
    cbn [omap list_omap].
    destruct (written_by pow images dict k caption) as [b|]; [|done].
    rewrite last_cons. by destruct (last (omap (written_by pow images dict k) cs)).
Qed.

(** X10. When several captions have the same closest image, the bundle of that
    image keeps the text of the last of them in stream order; a key no
    caption writes to holds an orphan bundle. *)
Theorem last_caption_wins (pow : float -> float -> float * errno)
    (raw : list element) (dict : gmap image_key string) :
  (forall el, el ∈ images_of raw -> hashable el) ->
  exists d,
    generate_caption_image_page_number pow raw dict = Return d
    /\ forall k,
         match last (omap (written_by pow (images_of raw) dict k) (captions_of raw)) with
         | Some b => d !! k = Some b
         | None => forall b, d !! k = Some b -> orphan_bundle dict k b
         end.
Proof.
  intros Hhash. unfold generate_caption_image_page_number.
  fold (images_of raw). fold (captions_of raw).
  destruct (caption_loop_lookup pow (images_of raw) dict (captions_of raw) ∅)
    as (d1 & -> & Hd1).
  cbn [bind].
  destruct (orphan_loop_spec dict (images_of raw) d1 Hhash)
    as (d & -> & Hkeep & Hnew & _).
  exists d. split; [reflexivity|]. intros k. specialize (Hd1 k).
  destruct (last _) as [b|].
  - by apply Hkeep.
  - rewrite lookup_empty in Hd1. intros b [Hb|[Ho _]]%Hnew; [congruence|exact Ho].
Qed.

Definition second_caption : element :=
  {| category := "FigureCaption"; text := "Figure 2";
     meta := {| page_number := Some 1;
                coordinates :=
                  Some (WithPoints (PyList (NearestFacts.box 8 12 10 14)));
                image_path := None; text_as_html := "" |} |}.

Definition two_captions : list element :=
  [image_element 1 (WithPoints (PyList (NearestFacts.box 9 9 11 11))) None;
   NearestFacts.caption_at 1 (PyList (NearestFacts.box 8 8 10 10));
   second_caption].

Lemma two_captions_hashable el : el ∈ images_of two_captions -> hashable el.
Proof.
  cbn. intros Hel c. apply list_elem_of_singleton in Hel as ->.
  intros [= <-]. vm_compute. discriminate.
Qed.

Lemma last_caption_wins_witness :
  exists d,
    generate_caption_image_page_number rounded_pow two_captions example_payloads = Return d
    /\ d !! (1, tuple_of_tuples (NearestFacts.box 9 9 11 11))
       = Some {| base64_data := "aGk="; caption_text := "Figure 2";
                 bundle_page_number := 1 |}.
Proof.
  destruct (last_caption_wins rounded_pow two_captions example_payloads two_captions_hashable)
    as (d & Hrun & Hd).
  exists d. split; [exact Hrun|].
  specialize (Hd (1, tuple_of_tuples (NearestFacts.box 9 9 11 11))).
  assert (last (omap (written_by rounded_pow (images_of two_captions) example_payloads
                        (1, tuple_of_tuples (NearestFacts.box 9 9 11 11)))
                  (captions_of two_captions))
          = Some {| base64_data := "aGk="; caption_text := "Figure 2";
                    bundle_page_number := 1 |}) as Hlast
    by (vm_compute; reflexivity).
  rewrite Hlast in Hd. exact Hd.
Defined.

(** X11. An image whose coordinates are a tuple holding a list point (left
    unconverted by line 228) makes the membership test of line 240 raise
    [TypeError]: no mapping is returned. *)
Theorem unhashable_image_raises (pow : float -> float -> float * errno)
    (raw pre post : list element) (bad : element)
    (dict : gmap image_key string) (p : Z) (c : coords_attr) :
  images_of raw = pre ++ bad :: post ->
  (forall el, el ∈ pre -> hashable el) ->
  page_number (meta bad) = Some p ->
  coordinates (meta bad) = Some c ->
  coords_for_key (points_or_self c) = KeyUnhashable ->
  generate_caption_image_page_number pow raw dict = Raise TypeError.
Proof.
  intros Himgs Hpre Hp Hc Hbad. unfold generate_caption_image_page_number.
  fold (images_of raw). fold (captions_of raw).
  destruct (caption_loop_lookup pow (images_of raw) dict (captions_of raw) ∅)
    as (d1 & -> & _).
  cbn [bind]. rewrite Himgs, for_each_app.
  destruct (orphan_loop_spec dict pre d1 Hpre) as (d2 & -> & _).
  cbn [bind for_each]. unfold orphan_step. by rewrite Hp, Hc, Hbad.
Qed.

Definition mixed_box : coords_attr :=
  WithPoints (PyTuple [PtList [coord 0; coord 0]; PtList [coord 1; coord 1]]).

Lemma unhashable_image_raises_witness :
  generate_caption_image_page_number rounded_pow
    [image_element 1 mixed_box None] ∅
  = Raise TypeError.
Proof.
  apply (unhashable_image_raises rounded_pow [image_element 1 mixed_box None] [] []
           (image_element 1 mixed_box None) ∅ 1 mixed_box eq_refl).
  - intros el Hel. by apply elem_of_nil in Hel.
  - reflexivity.
  - reflexivity.
  - reflexivity.
Defined.

(** X12. Without any stored payload every caption is dropped: all bundles have
    an empty caption text and an empty payload. *)
Theorem no_payloads_all_orphans (pow : float -> float -> float * errno)
    (raw : list element) :
  (forall el, el ∈ images_of raw -> hashable el) ->
  exists d,
    generate_caption_image_page_number pow raw ∅ = Return d
    /\ forall k b, d !! k = Some b -> caption_text b = "" /\ base64_data b = "".
Proof.
  intros Hhash. unfold generate_caption_image_page_number.
  fold (images_of raw). fold (captions_of raw).
  destruct (caption_loop_spec pow (images_of raw) ∅ (captions_of raw)
              (captions_of raw) ∅) as (d1 & -> & Hd1).
  { done. }
  { intros key b Hb. by rewrite lookup_empty in Hb. }
  cbn [bind].
  destruct (orphan_loop_spec ∅ (images_of raw) d1 Hhash)
    as (d & -> & _ & Hnew & _).
  exists d. split; [reflexivity|].
  intros k b [Hb|[(Hcap & Hpay & _) _]]%Hnew.
  - apply Hd1 in Hb as [_ (cap & _ & _ & Hdict & _)].
    by rewrite lookup_empty in Hdict.
  - split; [exact Hcap|]. rewrite Hpay. by rewrite lookup_empty.
Qed.

Lemma no_payloads_all_orphans_witness :
  exists d,
    generate_caption_image_page_number rounded_pow two_captions ∅ = Return d
    /\ forall k b, d !! k = Some b -> caption_text b = "" /\ base64_data b = "".
Proof. exact (no_payloads_all_orphans rounded_pow two_captions two_captions_hashable). Defined.

(** X13. A stream without Image elements gives the empty mapping, whatever
    captions it holds. *)
Theorem no_images_no_bundles (pow : float -> float -> float * errno)
    (raw : list element)
    (dict : gmap image_key string) :
  images_of raw = [] ->
  generate_caption_image_page_number pow raw dict = Return ∅.
Proof.
  intros Hnone. unfold generate_caption_image_page_number.
  fold (images_of raw). fold (captions_of raw). rewrite Hnone.
  destruct (caption_loop_spec pow [] dict (captions_of raw) (captions_of raw) ∅)
    as (d1 & -> & Hd1).
  { done. }
  { intros key b Hb. by rewrite lookup_empty in Hb. }
  cbn [bind for_each]. f_equal. apply map_empty. intros k.
  destruct (d1 !! k) as [b|] eqn:Hb; [|done].
  apply Hd1 in Hb as [(el & Hel & _) _]. by apply elem_of_nil in Hel.
Qed.

Lemma no_images_no_bundles_witness :
  generate_caption_image_page_number rounded_pow
    [NearestFacts.caption_at 1 (PyList (NearestFacts.box 8 8 10 10))]
    example_payloads
  = Return ∅.
Proof. by apply no_images_no_bundles. Defined.

(** X14. The encoding stage followed by the caption stage: the payload of every
    bundle is the one read from the file of the last encoded Image element
    that has the bundle's key, and the empty string when there is none. *)
Theorem bundle_payload_from_file (pow : float -> float -> float * errno)
    (path_exists : string -> bool)
    (read_base64 : string -> option string) (raw : list element) :
  ConvertExtras.paged_images raw ->
  (forall el, el ∈ images_of raw -> hashable el) ->
  exists raw_image_list image_data_dict d,
    convert_images_to_base64 path_exists read_base64 raw
    = Return (raw_image_list, image_data_dict)
    /\ generate_caption_image_page_number pow raw image_data_dict = Return d
    /\ forall k b, d !! k = Some b ->
         base64_data b
         = default ""
             (last (omap (ConvertExtras.payload_for path_exists read_base64 k) raw)).
Proof.
  intros Hpaged Hhash. unfold convert_images_to_base64.
  destruct (ConvertExtras.convert_loop_spec path_exists read_base64 raw ([], ∅)
              Hpaged) as (dict & -> & Hdict).
  assert (forall k,
            dict !! k
            = last (omap (ConvertExtras.payload_for path_exists read_base64 k) raw))
    as Hlook.
  { intros k. rewrite Hdict. cbn [snd]. rewrite lookup_empty. by destruct (last _). }
  unfold generate_caption_image_page_number.
  fold (images_of raw). fold (captions_of raw).
  destruct (caption_loop_spec pow (images_of raw) dict (captions_of raw)
              (captions_of raw) ∅) as (d1 & Hcap & Hd1).
  { done. }
  { intros key b Hb. by rewrite lookup_empty in Hb. }
  destruct (orphan_loop_spec dict (images_of raw) d1 Hhash)
    as (d & Horph & _ & Hnew & _).
  eexists _, dict, d. split; [reflexivity|]. rewrite Hcap. cbn [bind].
  split; [exact Horph|].
  intros k b [Hb|[(_ & Hpay & _) _]]%Hnew.
  - apply Hd1 in Hb as [_ (cap & _ & _ & Hk & _)].
    rewrite <- Hlook, Hk. reflexivity.
  - by rewrite Hpay, Hlook.
Qed.

Lemma bundle_payload_from_file_witness :
  exists raw_image_list image_data_dict d,
    convert_images_to_base64 (fun _ => true) (fun _ => Some "aGk=")
      [ConvertExtras.figure]
    = Return (raw_image_list, image_data_dict)
    /\ generate_caption_image_page_number rounded_pow [ConvertExtras.figure] image_data_dict
       = Return d
    /\ forall k b, d !! k = Some b ->
         base64_data b
         = default ""
             (last (omap (ConvertExtras.payload_for (fun _ => true)
                            (fun _ => Some "aGk=") k) [ConvertExtras.figure])).
Proof.
  apply (bundle_payload_from_file rounded_pow (fun _ => true) (fun _ => Some "aGk=")
           [ConvertExtras.figure] ConvertExtras.figure_paged).
  cbn. intros el Hel c. apply list_elem_of_singleton in Hel as ->.
  intros [= <-]. vm_compute. discriminate.
Defined.

End BundleExtras.

(** ** Retry helper: other exceptions, bounds for any model *)

Module RetryExtras.
Import Summarizer RetryFacts.

Definition total (l : list Z) : Z := foldr Z.add 0 l.

Lemma total_app l1 l2 : total (l1 ++ l2) = total l1 + total l2.
Proof. unfold total. induction l1 as [|x l1 IH]; cbn; lia. Qed.

Section AnyModel.

Context {P : Type}.
Variable model : nat -> P -> response.
Variable content : P.
Variables element_type element_key : string.

(** Rate-limited [k] times, then another exception: the "error" sentinel is
    returned at once, after [k] sleeps. *)
Lemma retry_loop_refused (hint : nat -> option Z) k :
  forall remaining retries w,
  (k < remaining)%nat ->
  (forall i, (i < k)%nat ->
     model (calls w + i)%nat content = ResourceExhausted (hint (calls w + i)%nat)) ->
  model (calls w + k)%nat content = OtherException ->
  retry_loop model content element_type element_key remaining retries w
  = (error_sentinel element_type element_key,
     {| calls := calls w + S k;
        sleeps := sleeps w ++ delays hint (calls w) retries k |}).
Proof.
  induction k as [|k IH]; intros remaining retries w Hlt Hlimit Hother;
    destruct remaining as [|remaining]; try lia; cbn [retry_loop]; unfold call.
  - rewrite Nat.add_0_r in Hother. rewrite Hother. cbn.
    by rewrite app_nil_r, Nat.add_1_r.
  - pose proof (Hlimit 0%nat ltac:(lia)) as H0. rewrite Nat.add_0_r in H0.
    rewrite H0.
    rewrite (IH remaining); unfold sleep; cbn [calls sleeps].
    + rewrite delays_S, <- app_assoc. cbn [app]. do 2 f_equal. lia.
    + lia.
    + intros i Hi. replace (S (calls w) + i)%nat with (calls w + S i)%nat by lia.
      apply Hlimit. lia.
    + replace (S (calls w) + k)%nat with (calls w + S k)%nat by lia.
      exact Hother.
Qed.

Lemma wait_time_ge retries retry_delay :
  2 ^ Z.of_nat retries <= wait_time retries retry_delay.
Proof. rewrite wait_time_max. lia. Qed.

(** Whatever the model does: at most [remaining] calls, no more sleeps than
    calls, every sleep at least [2 ^ (retries + 1)]. *)
Lemma retry_loop_bounds remaining : forall retries w,
  let run := retry_loop model content element_type element_key remaining retries w in
  exists slept,
    sleeps run.2 = sleeps w ++ slept
    /\ (calls w <= calls run.2 <= calls w + remaining)%nat
    /\ (length slept <= calls run.2 - calls w)%nat
    /\ Forall (fun s => 2 ^ Z.of_nat (S retries) <= s) slept.
Proof.
  induction remaining as [|remaining IH]; intros retries w; cbn [retry_loop].
  - exists []. cbn. rewrite app_nil_r. repeat split; [lia..|constructor].
  - unfold call. destruct (model (calls w) content) as [t|d|].
    + exists []. cbn. rewrite app_nil_r. repeat split; [lia..|constructor].
    + destruct (IH (S retries) (sleep (wait_time (S retries) d)
                                  {| calls := S (calls w); sleeps := sleeps w |}))
        as (slept & Hs & Hc & Hl & Hall).
      cbn zeta in *. unfold sleep in *. cbn [calls sleeps] in *.
      exists (wait_time (S retries) d :: slept).
      rewrite Hs, <- app_assoc. cbn [app length].
      repeat split; [lia..|].
      constructor; [apply wait_time_ge|].
      eapply Forall_impl; [exact Hall|]. cbn beta. intros s Hle.
      etrans; [|exact Hle]. apply Z.pow_le_mono_r; lia.
    + exists []. cbn. rewrite app_nil_r. repeat split; [lia..|constructor].
Qed.

(** Without server hints the sleeps add up to less than
    [2 ^ (retries + remaining + 1)]. *)
Lemma retry_loop_total remaining : forall retries w,
  (forall n d, model n content = ResourceExhausted d -> d = None) ->
  let run := retry_loop model content element_type element_key remaining retries w in
  exists slept,
    sleeps run.2 = sleeps w ++ slept
    /\ total slept
       <= 2 ^ Z.of_nat (retries + remaining + 1) - 2 ^ Z.of_nat (retries + 1).
Proof.
  induction remaining as [|remaining IH]; intros retries w Hnone;
    cbn [retry_loop].
  - exists []. cbn. rewrite app_nil_r, Nat.add_0_r. split; [done|]. unfold total.
    cbn. lia.
  - assert (2 ^ Z.of_nat (retries + 1)
            <= 2 ^ Z.of_nat (retries + S remaining + 1)) as Hmono
      by (apply Z.pow_le_mono_r; lia).
    unfold call. destruct (model (calls w) content) as [t|d|] eqn:Hm.
    + exists []. cbn. rewrite app_nil_r. split; [done|]. unfold total. cbn. lia.
    + rewrite (Hnone _ _ Hm).
      destruct (IH (S retries) (sleep (wait_time (S retries) None)
                                  {| calls := S (calls w); sleeps := sleeps w |})
                  Hnone) as (slept & Hs & Ht).
      cbn zeta in *. unfold sleep in *. cbn [calls sleeps] in *.
      exists (wait_time (S retries) None :: slept).
      rewrite Hs, <- app_assoc. cbn [app]. split; [done|].
      unfold total in *. cbn [foldr]. unfold wait_time.
      replace (S retries + remaining + 1)%nat with (retries + S remaining + 1)%nat
        in Ht by lia.
      replace (S retries + 1)%nat with (S (retries + 1)) in Ht by lia.
      replace (S retries) with (retries + 1)%nat by lia.
      rewrite (Nat2Z.inj_succ (retries + 1)), Z.pow_succ_r in Ht by lia. lia.
    + exists []. cbn. rewrite app_nil_r. split; [done|]. unfold total. cbn. lia.
Qed.

End AnyModel.

(** X15. An exception other than a rate limit is never retried: after [k]
    rate-limited calls ([k < max_retries]) it ends the call with the
    "error" sentinel, [k + 1] calls and [k] sleeps in all. *)
Theorem permanent_failure_not_retried {P : Type} (model : nat -> P -> response)
    (content : P) (element_type element_key : string) (max_retries k : nat)
    (w : world) (hint : nat -> option Z) :
  (k < max_retries)%nat ->
  (forall i, (i < k)%nat ->
     model (calls w + i)%nat content = ResourceExhausted (hint (calls w + i)%nat)) ->
  model (calls w + k)%nat content = OtherException ->
  make_llm_call_with_retry_multimodal model content element_type element_key
    max_retries w
  = (error_sentinel element_type element_key,
     {| calls := calls w + S k;
        sleeps := sleeps w ++ delays hint (calls w) 0 k |}).
Proof. intros. by apply retry_loop_refused. Qed.

Definition refused_second (n : nat) (_ : unit) : response :=
  if bool_decide (n = 0%nat) then ResourceExhausted None else OtherException.

Lemma permanent_failure_not_retried_witness :
  make_llm_call_with_retry_multimodal refused_second tt "image" "k" 5 w0
  = (error_sentinel "image" "k", {| calls := 2; sleeps := [2] |}).
Proof.
  rewrite (permanent_failure_not_retried refused_second tt "image" "k" 5 1 w0
             (fun _ => None)); [reflexivity|lia| |reflexivity].
  intros i Hi. assert (i = 0%nat) as -> by lia. reflexivity.
Defined.

(** X16. For every model and every [max_retries], the helper makes at most
    [max_retries] calls, sleeps at most once per call, keeps the earlier
    sleeps, and never sleeps less than 2 seconds. *)
Theorem attempts_bounded {P : Type} (model : nat -> P -> response)
    (content : P) (element_type element_key : string) (max_retries : nat)
    (w : world) :
  let run :=
    make_llm_call_with_retry_multimodal model content element_type element_key
      max_retries w in
  exists slept,
    sleeps run.2 = sleeps w ++ slept
    /\ (calls w <= calls run.2 <= calls w + max_retries)%nat
    /\ (length slept <= calls run.2 - calls w)%nat
    /\ Forall (fun s => 2 <= s) slept.
Proof.
  unfold make_llm_call_with_retry_multimodal.
  destruct (retry_loop_bounds model content element_type element_key
              max_retries 0 w) as (slept & Hs & Hc & Hl & Hall).
  exists slept. repeat split; try done; lia.
Qed.

(** X17. When the server never suggests a delay, 5 retries sleep at most
    2 + 4 + 8 + 16 + 32 = 62 seconds in all; in general less than
    [2 ^ (max_retries + 1)]. *)
Theorem total_backoff_without_hints {P : Type} (model : nat -> P -> response)
    (content : P) (element_type element_key : string) (max_retries : nat)
    (w : world) :
  (forall n d, model n content = ResourceExhausted d -> d = None) ->
  let run :=
    make_llm_call_with_retry_multimodal model content element_type element_key
      max_retries w in
  exists slept,
    sleeps run.2 = sleeps w ++ slept
    /\ total slept <= 2 ^ Z.of_nat (max_retries + 1) - 2.
Proof.
  intros Hnone. unfold make_llm_call_with_retry_multimodal.
  destruct (retry_loop_total model content element_type element_key
              max_retries 0 w Hnone) as (slept & Hs & Ht).
  exists slept. split; [exact Hs|]. cbn in Ht. exact Ht.
Qed.

Lemma total_backoff_without_hints_witness :
  exists slept,
    sleeps (make_llm_call_with_retry_multimodal BatchClaims.flaky tt "image" "k"
              5 w0).2 = slept
    /\ total slept <= 62.
Proof.
  destruct (total_backoff_without_hints BatchClaims.flaky tt "image" "k" 5 w0)
    as (slept & Hs & Ht).
  - intros n d. unfold BatchClaims.flaky. case_bool_decide; [|done].
    by intros [= <-].
  - exists slept. split; [exact Hs|exact Ht].
Defined.

End RetryExtras.

(** ** Batches: calls made for images, size of the text sentinels *)

Module BatchExtras.
Import Summarizer RetryFacts RetryExtras ImageBatchFacts.

Section ImageCalls.

Variable bytes : Type.
Variable b64decode : string -> option bytes.
Variable str_page : Z -> string.
Variable str_key : ImageProcessor.image_key -> string.
Variable model : nat -> prompt_parts bytes -> response.

Definition decodable (it : item) : bool :=
  match b64decode (info_base64_data it.2) with
  | Some _ => true
  | None => false
  end.

Lemma summarize_image_calls (it : item) w :
  let r := summarize_image bytes b64decode str_page str_key model it.1 it.2 w in
  (calls w <= calls r.2 <= calls w + if decodable it then 5 else 0)%nat.
Proof.
  unfold summarize_image, decodable, make_llm_call_with_retry_multimodal.
  destruct (b64decode (info_base64_data it.2)) as [decoded|]; [|cbn; lia].
  destruct (retry_loop_bounds model (make_prompt bytes str_page it.2 decoded)
              "image" (element_key str_page str_key it.1 it.2) 5 0 w)
    as (slept & _ & Hc & _).
  cbn zeta in Hc. destruct (retry_loop _ _ _ _ _ _ _) as [summary w'].
  cbn [fst snd] in *. exact Hc.
Qed.

Lemma summarize_images_calls items : forall summaries counter w,
  let r :=
    summarize_images bytes b64decode str_page str_key model items summaries
      counter w in
  (calls w <= calls r.2
   <= calls w + 5 * length (List.filter decodable items))%nat.
Proof.
  induction items as [|[key info] rest IH]; intros summaries counter w.
  - cbn. lia.
  - cbn [summarize_images List.filter].
    pose proof (summarize_image_calls (key, info) w) as Hstep.
    cbn zeta in Hstep. cbn [fst snd] in Hstep.
    destruct (summarize_image bytes b64decode str_page str_key model key info w)
      as [[summary flag] w'].
    cbn [fst snd] in Hstep.
    specialize (IH (summaries ++ [summary])
                  (if flag then S counter else counter) w').
    cbn zeta in IH.
    destruct (decodable (key, info)); cbn [length]; lia.
Qed.

End ImageCalls.

(** X18. An image batch makes at most 5 calls to the model for each item whose
    payload can be decoded, and none for the others. *)
Theorem image_calls_bounded (bytes : Type) (b64decode : string -> option bytes)
    (str_page : Z -> string) (str_key : ImageProcessor.image_key -> string)
    (model : nat -> prompt_parts bytes -> response)
    (items : list item) (w : world) :
  let r := image_to_text_summarizer bytes b64decode str_page str_key model items w in
  (calls w <= calls r.2
   <= calls w + 5 * length (List.filter (decodable bytes b64decode) items))%nat.
Proof. apply summarize_images_calls. Qed.

Lemma length_append (s1 s2 : string) :
  String.length (s1 +:+ s2) = (String.length s1 + String.length s2)%nat.
Proof. induction s1 as [|c s1 IH]; [done|]. simpl. by f_equal. Qed.

Lemma length_take_chars n : forall s,
  String.length (take_chars n s) = Nat.min n (String.length s).
Proof.
  unfold take_chars. induction n as [|n IH]; intros [|c s]; simpl; try done.
  by f_equal.
Qed.

(** X19. The sentinel of a text or table quotes at most its first 100
    characters: it is never longer than 127 (128 for a table) characters. *)
Theorem sentinel_length (item : string) :
  String.length (text_sentinel item)
  = (27 + Nat.min 100 (String.length item))%nat
  /\ String.length (table_sentinel item)
     = (28 + Nat.min 100 (String.length item))%nat
  /\ (String.length (text_sentinel item) <= 127)%nat
  /\ (String.length (table_sentinel item) <= 128)%nat.
Proof.
  assert (String.length (text_sentinel item)
          = (27 + Nat.min 100 (String.length item))%nat) as H1.
  { unfold text_sentinel. rewrite !length_append, length_take_chars. cbn. lia. }
  assert (String.length (table_sentinel item)
          = (28 + Nat.min 100 (String.length item))%nat) as H2.
  { unfold table_sentinel. rewrite !length_append, length_take_chars. cbn. lia. }
  split; [exact H1|]. split; [exact H2|]. lia.
Qed.

End BatchExtras.

(** ** pdf_extractor.py *)

Module PdfExtractor.

Inductive extract_exn (E : Type) :=
  | FileNotFoundError
  | PartitionError (e : E).
Arguments FileNotFoundError {E}.
Arguments PartitionError {E} e.

Section Extract.

(** [os.path.join], [os.path.exists] and [partition_pdf], which reads the
    process environment (it finds Poppler through [PATH]) and is taken not
    to write to it; [E] is what it may raise. *)
Variable E : Type.
Variable path_join : string -> string -> string.
Variable path_exists : string -> bool.
Variable partition_pdf : gmap string string -> string -> list element + E.

(** [os.environ] is threaded through: the result and the environment the
    call leaves. *)
Definition extract_pdf_elements (path fname poppler_bin_path : string)
    (environ : gmap string string)
    : (list element + extract_exn E) * gmap string string :=
  let pdfinfo_exe := path_join poppler_bin_path "pdfinfo.exe" in
  if negb (path_exists pdfinfo_exe) then (inr FileNotFoundError, environ)
  else
    let original_path := default "" (environ !! "PATH") in
    let environ :=
      <["PATH" := poppler_bin_path +:+ ";" +:+ original_path]> environ in
    let environ := <["POPPLER_PATH" := poppler_bin_path]> environ in
    let outcome := partition_pdf environ (path_join path fname) in
    (* finally *)
    let environ := <["PATH" := original_path]> environ in
    match outcome with
    | inl raw_pdf_elements => (inl raw_pdf_elements, environ)
    | inr e => (inr (PartitionError e), environ)
    end.

End Extract.

End PdfExtractor.

Module PdfExtractorFacts.
Import PdfExtractor.

(** X20. Without [pdfinfo.exe] under the Poppler directory the extraction raises
    [FileNotFoundError] and leaves the environment as it is.  Otherwise the
    parser runs with the Poppler directory put in front of [PATH]; whether
    it returns or raises, [PATH] is afterwards set to its former value (to
    the empty string when it was unset), [POPPLER_PATH] stays set to the
    Poppler directory, and no other variable is changed. *)
Theorem environment_after_extraction (E : Type)
    (path_join : string -> string -> string) (path_exists : string -> bool)
    (partition_pdf : gmap string string -> string -> list element + E)
    (path fname poppler : string) (environ : gmap string string) :
  let run :=
    extract_pdf_elements E path_join path_exists partition_pdf path fname
      poppler environ in
  let original_path := default "" (environ !! "PATH") in
  (path_exists (path_join poppler "pdfinfo.exe") = false ->
   run = (inr FileNotFoundError, environ))
  /\ (path_exists (path_join poppler "pdfinfo.exe") = true ->
      run.2 !! "PATH" = Some original_path
      /\ run.2 !! "POPPLER_PATH" = Some poppler
      /\ (forall name, name <> "PATH" -> name <> "POPPLER_PATH" ->
            run.2 !! name = environ !! name)
      /\ exists seen,
           seen !! "PATH" = Some (poppler +:+ ";" +:+ original_path)
           /\ run.1 = match partition_pdf seen (path_join path fname) with
                      | inl raw => inl raw
                      | inr e => inr (PartitionError e)
                      end).
Proof.
  cbn zeta. unfold extract_pdf_elements. split; intros ->; cbn [negb]; [done|].
  set (seen := <["POPPLER_PATH":=poppler]>
                 (<["PATH":=poppler +:+ ";" +:+ default "" (environ !! "PATH")]>
                    environ)).
  assert (seen !! "PATH"
          = Some (poppler +:+ ";" +:+ default "" (environ !! "PATH"))) as Hseen
    by (unfold seen; by rewrite lookup_insert_ne, lookup_insert_eq).
  destruct (partition_pdf seen (path_join path fname)) as [raw|e] eqn:Hout;
    cbn [fst snd].
  - split; [by rewrite lookup_insert_eq|].
    split; [unfold seen; by rewrite lookup_insert_ne, lookup_insert_eq|].
    split; [intros name H1 H2; unfold seen; by rewrite !lookup_insert_ne|].
    exists seen. split; [exact Hseen|]. by rewrite Hout.
  - split; [by rewrite lookup_insert_eq|].
    split; [unfold seen; by rewrite lookup_insert_ne, lookup_insert_eq|].
    split; [intros name H1 H2; unfold seen; by rewrite !lookup_insert_ne|].
    exists seen. split; [exact Hseen|]. by rewrite Hout.
Qed.

Definition join (a b : string) : string := a +:+ "/" +:+ b.

(** [PATH] was unset and the parser raises: [PATH] is left set to the empty
    string. *)
Lemma environment_after_extraction_witness :
  (extract_pdf_elements unit join (fun _ => true) (fun _ _ => inr tt)
     "." "report.pdf" "/opt/poppler" ∅).2 !! "PATH"
  = Some "".
Proof.
  destruct (environment_after_extraction unit join (fun _ => true)
              (fun _ _ => inr tt) "." "report.pdf" "/opt/poppler" ∅)
    as [_ H].
  destruct (H eq_refl) as [Hpath _]. exact Hpath.
Defined.

End PdfExtractorFacts.

(** ** The stages composed as in [run_pipeline] *)

Module PipelineFacts.
Import Summarizer RetryFacts BatchFacts ImageBatchFacts.

(** X21. Steps 2 and 4 of [run_pipeline]: the texts and tables of the
    categorizer go to the text and table summarizer.  Every text and table
    gets one summary slot, and the stage makes one model call per text and
    per table, hence no more calls than the stream has elements, and never
    sleeps. *)
Theorem text_stage_calls (raw : list element) (pages : Z)
    (model_text model_table : nat -> string -> response) (w : world) :
  (forall el, el ∈ raw -> is_Some (page_number (meta el))) ->
  exists texts tables,
    Categorizer.categorize_elements raw pages = Return (texts, tables)
    /\ let r := generate_table_text_summaries model_text model_table texts tables w in
       length (text_summaries r) = length texts
       /\ length (table_summaries r) = length tables
       /\ calls (final_world r) = (calls w + length texts + length tables)%nat
       /\ (calls (final_world r) <= calls w + length raw)%nat
       /\ sleeps (final_world r) = sleeps w.
Proof.
  intros Hpage. unfold Categorizer.categorize_elements.
  destruct (CategorizerFacts.loop_spec raw pages (seq 0 (length raw))
              Categorizer.init Hpage) as (st & Hloop & _ & _).
  rewrite Hloop. cbn [bind]. eexists _, _. split; [reflexivity|].
  destruct (CategorizerExtras.loop_counters raw pages raw [] Categorizer.init st
              eq_refl Hloop) as (_ & Hp & Hl).
  destruct (generate_table_text_summaries_spec model_text model_table
              (Categorizer.texts st) (Categorizer.tables_html st) w)
    as (Ht & Hb & _ & _ & Hw).
  cbn zeta in *. rewrite Ht, Hb, Hw, !length_zip_with, !length_answers.
  cbn [calls sleeps]. cbn in Hp, Hl. repeat split; lia.
Qed.

Lemma text_stage_calls_witness :
  exists texts tables,
    Categorizer.categorize_elements
      [CategorizerFacts.narrative "Sales"; CategorizerFacts.table "<table/>"] 100
    = Return (texts, tables)
    /\ calls (final_world
               (generate_table_text_summaries BatchClaims.flaky BatchClaims.flaky
                  texts tables w0)) = 2%nat.
Proof.
  destruct (text_stage_calls
              [CategorizerFacts.narrative "Sales"; CategorizerFacts.table "<table/>"]
              100 BatchClaims.flaky BatchClaims.flaky w0)
    as (texts & tables & Hrun & _ & _ & Hc & _).
  - intros el Hel.
    repeat (apply elem_of_cons in Hel as [->|Hel]); try (eexists; reflexivity).
    by apply elem_of_nil in Hel.
  - exists texts, tables. split; [exact Hrun|].
    rewrite Hc. cbn [calls w0].
    assert (Return (texts, tables)
            = Return (["Sales"], ["Sales" +:+ newline +:+ newline +:+ "<table/>"]))
      as Heq by (rewrite <- Hrun; reflexivity).
    injection Heq as -> ->. reflexivity.
Defined.

(** X22. Steps 3.2 and 5 of [run_pipeline]: the bundles go to the image
    summarizer, in whatever order the mapping yields them.  There is one
    summary per bundle, no more summaries than the stream has images, and
    at most 5 model calls per image. *)
Theorem image_stage_bounded (pow : float -> float -> float * errno)
    (raw : list element)
    (dict : gmap ImageProcessor.image_key string)
    (bytes : Type) (b64decode : string -> option bytes)
    (str_page : Z -> string) (str_key : ImageProcessor.image_key -> string)
    (model : nat -> prompt_parts bytes -> response) (w : world) :
  (forall el, el ∈ BundleFacts.images_of raw -> BundleFacts.hashable el) ->
  exists d,
    ImageProcessor.generate_caption_image_page_number pow raw dict = Return d
    /\ forall items : list item,
         items ≡ₚ map_to_list (of_bundle <$> d) ->
         let r :=
           image_to_text_summarizer bytes b64decode str_page str_key model
             items w in
         length r.1.1 = size d
         /\ (length r.1.1 <= length (BundleFacts.images_of raw))%nat
         /\ (calls r.2 <= calls w + 5 * length (BundleFacts.images_of raw))%nat.
Proof.
  intros Hhash. unfold ImageProcessor.generate_caption_image_page_number.
  fold (BundleFacts.images_of raw). fold (BundleFacts.captions_of raw).
  destruct (BundleFacts.caption_loop_spec pow (BundleFacts.images_of raw) dict
              (BundleFacts.captions_of raw) (BundleFacts.captions_of raw) ∅)
    as (d1 & -> & Hd1).
  { done. }
  { intros key b Hb. by rewrite lookup_empty in Hb. }
  cbn [bind].
  destruct (BundleFacts.orphan_loop_spec dict (BundleFacts.images_of raw) d1 Hhash)
    as (d & -> & _ & Hnew & _).
  exists d. split; [reflexivity|].
  assert (size d <= length (BundleFacts.images_of raw))%nat as Hsize.
  { etrans; [|apply (BundleFacts.length_omap_le KeyFacts.caption_stage_key)].
    apply BundleFacts.size_le_keys. intros key [b Hb].
    apply list_elem_of_omap.
    apply Hnew in Hb as [Hb|[_ Hk]]; [|exact Hk].
    by apply Hd1 in Hb as [? _]. }
  intros items Hitems.
  assert (length items = size d) as Hlen.
  { apply Permutation_length in Hitems. rewrite Hitems.
    etrans; [apply length_map_to_list|apply map_size_fmap]. }
  unfold image_to_text_summarizer.
  destruct (summarize_images_spec bytes b64decode str_page str_key model
              items [] 0 w) as [Hs _].
  pose proof (BatchExtras.summarize_images_calls bytes b64decode str_page str_key
                model items [] 0%nat w) as Hc.
  cbn zeta in Hs, Hc. rewrite Hs, app_nil_l, length_zip_with,
    length_image_outcomes, Nat.min_id.
  assert (length (List.filter (BatchExtras.decodable bytes b64decode) items)
          <= length items)%nat as Hf by apply List.filter_length_le.
  repeat split; lia.
Qed.

Lemma image_stage_bounded_witness :
  exists d,
    ImageProcessor.generate_caption_image_page_number rounded_pow
      BundleFacts.example_stream
      BundleFacts.example_payloads = Return d
    /\ (length (image_to_text_summarizer unit (fun _ => Some tt) (fun _ => "1")
                  (fun _ => "k") CounterClaims.plain
                  (map_to_list (of_bundle <$> d)) w0).1.1 <= 2)%nat.
Proof.
  destruct (image_stage_bounded rounded_pow BundleFacts.example_stream
              BundleFacts.example_payloads unit (fun _ => Some tt)
              (fun _ => "1") (fun _ => "k") CounterClaims.plain w0
              BundleFacts.example_stream_hashable) as (d & Hrun & Hd).
  exists d. split; [exact Hrun|].
  destruct (Hd (map_to_list (of_bundle <$> d)) (reflexivity _)) as (_ & Hle & _).
  exact Hle.
Defined.

End PipelineFacts.
